(** * BorgVR: brick addressing, residency lookup and miss reporting

    A shallow embedding of the Metal shader headers
    [VisionApp/ShaderTypes.h], [VisionApp/GPUHashtable.h] and
    [VisionApp/VolumeAtlas.h].

    Conventions.
    - A Metal [uint] is a [Z] in [0, 2^32); every arithmetic operation
      whose mathematical result can leave that range is wrapped with
      [wrap32].
    - The hash buffer, the one [device] buffer that is written, is a [list]
      indexed from 0 (stdpp lookup [!!] and insert [<[_:=_]>]).
    - A [device] pointer that is only read ([brickMeta], [levelArray]) is
      the function from an index to the element stored there.
    - The compile-time macros of [ShaderTypes.h] are the fields of a
      [Config] record; [dummy] carries the values written in the header.
    - [float] is an interface ([MetalFloat]) with two instances: the
      rationals and IEEE 754 binary32.
    - The one unbounded loop, the [do .. while] of [getBrick], takes a bound
      on its rounds and yields [None] when the bound is reached. *)

From Stdlib Require Import ZArith Zdivisibility Lia List Bool QArith Qround Qabs Lqa
  Qpower SpecFloat.
From stdpp Require Import base list.

Local Open Scope Z_scope.

(** ** ShaderTypes.h *)

Record Config : Type := mkConfig {
  LEVEL_COUNT : Z;
  HASHTABLE_SIZE : Z;
  MAX_PROBING_ATTEMPTS : nat;
  REQUEST_LOWRES_LOD : Z
}.

(** The values under [#ifndef OVERRIDE_DUMMY]. *)
Definition dummy : Config :=
  {| LEVEL_COUNT := 10;
     HASHTABLE_SIZE := 128;
     MAX_PROBING_ATTEMPTS := 10;
     REQUEST_LOWRES_LOD := 1 |}.

(** [enum BrickIDFlags] *)
Definition BI_MISSING : Z := 0.
Definition BI_CHILD_EMPTY : Z := 1.
Definition BI_EMPTY : Z := 2.
Definition BI_FLAG_COUNT : Z := 3.

(** ** Machine integers *)

Definition wrap32 (z : Z) : Z := z mod 2 ^ 32.

Definition is_uint (z : Z) : Prop := 0 <= z < 2 ^ 32.

(** ** GPUHashtable.h *)

Definition simpleHash (value : Z) : Z := wrap32 (value * 2654435761).

(** The marker [0xFFFFFFFFu] of a free slot. *)
Definition EMPTY_SLOT : Z := 4294967295.

(** [atomic_compare_exchange_weak_explicit(&buf[slot], &expected, desired, ..)].
    When the stored word differs from [expected] it is loaded into
    [expected] and the call yields [false].  When it equals [expected] the
    call replaces it by [desired] and yields [true], unless it fails
    spuriously, as the weak form of the exchange may: [spurious] tells
    whether this call does, and the call then yields [false] with the
    buffer and [expected] as they were.  The result is (success, new value
    of [expected], new buffer).  A slot outside the buffer is never
    addressed by [reportMissingBrick] on a buffer of [HASHTABLE_SIZE]
    words; the model then reports failure and leaves everything as it is. *)
Definition atomic_compare_exchange_weak (spurious : bool) (buf : list Z)
    (slot : nat) (expected desired : Z) : bool * Z * list Z :=
  match buf !! slot with
  | Some v =>
      if (v =? expected) && negb spurious
      then (true, expected, <[slot := desired]> buf)
      else (false, v, buf)
  | None => (false, expected, buf)
  end.

(** No exchange of a call fails spuriously. *)
Definition reliable : Z -> bool := fun _ => false.

(** Only the first exchange of a call fails spuriously. *)
Definition firstFails : Z -> bool := fun i => i =? 0.

(** No exchange of any call of a run fails spuriously. *)
Definition allReliable : nat -> Z -> bool := fun _ _ => false.

Section Hashtable.
Context (cfg : Config).

(** [(hashIndex + i) % HASHTABLE_SIZE] *)
Definition probeSlot (hashIndex i : Z) : nat :=
  Z.to_nat (wrap32 (hashIndex + i) mod HASHTABLE_SIZE cfg).

(** The body of [for (uint i = ..; i < MAX_PROBING_ATTEMPTS; ++i)], with
    [remaining] the number of iterations still to run and [i] the loop
    counter; [spurious i] tells whether the exchange of iteration [i] fails
    spuriously. *)
Fixpoint probeLoop (spurious : Z -> bool) (remaining : nat)
    (brickIndex hashIndex i : Z) (atomicBuffer : list Z) : list Z :=
  match remaining with
  | O => atomicBuffer
  | S remaining' =>
      let slot := probeSlot hashIndex i in
      let '(ok, expected, atomicBuffer') :=
        atomic_compare_exchange_weak (spurious i) atomicBuffer slot EMPTY_SLOT
          brickIndex in
      if ok then atomicBuffer'
      else if expected =? brickIndex then atomicBuffer'
      else probeLoop spurious remaining' brickIndex hashIndex (i + 1) atomicBuffer'
  end.

Definition hashIndexOf (brickIndex : Z) : Z :=
  simpleHash brickIndex mod HASHTABLE_SIZE cfg.

Definition reportMissingBrick (spurious : Z -> bool) (brickIndex : Z)
    (atomicBuffer : list Z) : list Z :=
  probeLoop spurious (MAX_PROBING_ATTEMPTS cfg) brickIndex
    (hashIndexOf brickIndex) 0 atomicBuffer.

(** A run of calls, one after the other, first call first; [spurious n]
    is the behaviour of the exchanges of call number [n]. *)
Fixpoint reportAll (spurious : nat -> Z -> bool) (indices : list Z)
    (atomicBuffer : list Z) : list Z :=
  match indices with
  | [] => atomicBuffer
  | i :: indices' =>
      reportAll (fun n => spurious (S n)) indices'
        (reportMissingBrick (spurious 0%nat) i atomicBuffer)
  end.

(** The buffer the host hands over before a pass: every slot free. *)
Definition clearedTable : list Z :=
  replicate (Z.to_nat (HASHTABLE_SIZE cfg)) EMPTY_SLOT.

(** The slot inspected by the [k]-th probe for [brickIndex]. *)
Definition slotOf (brickIndex : Z) (k : nat) : nat :=
  probeSlot (hashIndexOf brickIndex) (Z.of_nat k).

(** [brickIndex] sits in exactly one slot of the buffer. *)
Definition presentOnce (brickIndex : Z) (buf : list Z) : Prop :=
  exists s : nat, buf !! s = Some brickIndex /\
    forall s' : nat, buf !! s' = Some brickIndex -> s' = s.


(** A probe at slot [s] neither stores [idx] nor finds it: the loop moves
    on to the next slot. *)
Definition blocked (buf : list Z) (idx : Z) (s : nat) : Prop :=
  buf !! s <> Some EMPTY_SLOT /\ buf !! s <> Some idx.

(** The buffer has a word at every slot the loop can address. *)
Definition sized (buf : list Z) : Prop :=
  0 < HASHTABLE_SIZE cfg /\ length buf = Z.to_nat (HASHTABLE_SIZE cfg).

(** Every stored index sits in its own probe window, behind slots that
    block it: what the table looks like after any run of reports. *)
Definition wellPlaced (buf : list Z) : Prop :=
  forall (s : nat) (v : Z),
    buf !! s = Some v -> v <> EMPTY_SLOT ->
    exists k : nat, (k < MAX_PROBING_ATTEMPTS cfg)%nat /\ s = slotOf v k /\
      forall j : nat, (j < k)%nat -> blocked buf v (slotOf v j).

(** [occ] lists every slot of [buf] that is not free. *)
Definition covered (buf : list Z) (occ : list nat) : Prop :=
  forall (s : nat) (v : Z), buf !! s = Some v -> v <> EMPTY_SLOT -> s ∈ occ.

End Hashtable.

(** Eleven bricks whose indices all hash to slot 0. *)
Definition clash : list Z := map (fun k => 128 * Z.of_nat k) (seq 0 11).

(** Ten bricks whose indices all hash to slot 0 fill slots 0 to 9 of the
    table of [dummy]. *)
Definition crowded : list Z :=
  reportAll dummy allReliable (map (fun k => 128 * Z.of_nat k) (seq 1 10))
    (clearedTable dummy).

(** ** Vectors *)

Record vec3 (A : Type) : Type := mkVec3 { vx : A; vy : A; vz : A }.
Arguments mkVec3 {A} _ _ _.
Arguments vx {A} _.
Arguments vy {A} _.
Arguments vz {A} _.

Definition map3 {A B : Type} (f : A -> B) (v : vec3 A) : vec3 B :=
  mkVec3 (f (vx v)) (f (vy v)) (f (vz v)).

Definition zip3 {A B C : Type} (f : A -> B -> C) (u : vec3 A) (v : vec3 B)
    : vec3 C :=
  mkVec3 (f (vx u) (vx v)) (f (vy u) (vy v)) (f (vz u) (vz v)).

Definition splat {A : Type} (a : A) : vec3 A := mkVec3 a a a.

(** [uint4]: a brick's grid cell [xyz] and its level [w]. *)
Record uint4 : Type := mkUint4 { xyz : vec3 Z; w : Z }.

(** ** The scalar type [float]

    The shader's [float] and the operators it uses.  The brick resolver is
    written once over this interface; [ExactFloat] (rationals, no rounding)
    and [Binary32] (IEEE 754 single precision) instantiate it. *)
Class MetalFloat (F : Type) : Type := {
  fadd : F -> F -> F;
  fsub : F -> F -> F;
  fmul : F -> F -> F;
  fdiv : F -> F -> F;
  (** [a < b] and [a <= b] *)
  fltb : F -> F -> bool;
  fleb : F -> F -> bool;
  (** [float(n)] for a [uint] *)
  float_of_uint : Z -> F;
  (** [uint(f)]: the fractional part is discarded *)
  uint_of_float : F -> Z
}.

Section Atlas.
Context {F : Type} `{MetalFloat F}.
Context (cfg : Config).

(** [LevelData] *)
Record LevelData : Type := mkLevelData {
  bricksX : Z;
  bricksXTimesBricksY : Z;
  prevBricks : Z;
  fractionalBrickLayout : vec3 F
}.

(** The macros of vector and float type used by the pool transform. *)
Record PoolConfig : Type := mkPoolConfig {
  BRICK_SIZE : Z;
  OVERLAP_STEP : vec3 F;
  POOL_CAPACITY : vec3 Z;
  POOL_SIZE : vec3 F
}.
Context (pool : PoolConfig).

Definition fmin (a b : F) : F := if fltb b a then b else a.
Definition fmax (a b : F) : F := if fltb a b then b else a.
(** [clamp(x, lo, hi) = min(max(x, lo), hi)] *)
Definition fclamp (x lo hi : F) : F := fmin (fmax x lo) hi.
(** [step(edge, x)] is 0 for [x < edge] and 1 otherwise. *)
Definition fstep (edge x : F) : F :=
  if fltb x edge then float_of_uint 0 else float_of_uint 1.

(** A [device] pointer is the function from an index to the element
    stored there. *)
Definition getBrickIndex (brickCoords : uint4) (levelArray : Z -> LevelData)
    : Z :=
  let level := levelArray (w brickCoords) in
  wrap32 (prevBricks level +
          vx (xyz brickCoords) +
          vy (xyz brickCoords) * bricksX level +
          vz (xyz brickCoords) * bricksXTimesBricksY level).

Definition computeBrickCoords (normEntryCoords : vec3 F)
    (levelArray : Z -> LevelData) (LOD : Z) : uint4 :=
  let level := levelArray LOD in
  mkUint4
    (map3 uint_of_float (zip3 fmul normEntryCoords (fractionalBrickLayout level)))
    LOD.

(** [BrickCorners]: [values[0]] and [values[1]]. *)
Record BrickCorners : Type := mkCorners { corner0 : vec3 F; corner1 : vec3 F }.

Definition cornerAt (c : BrickCorners) (side : Z) : vec3 F :=
  if side =? 0 then corner0 c else corner1 c.

Definition getBrickCorners (brickCoords : uint4)
    (levelArray : Z -> LevelData) : BrickCorners :=
  let layout := fractionalBrickLayout (levelArray (w brickCoords)) in
  mkCorners
    (zip3 fdiv (map3 float_of_uint (xyz brickCoords)) layout)
    (zip3 fdiv
       (map3 float_of_uint (map3 (fun c => wrap32 (c + 1)) (xyz brickCoords)))
       layout).

Definition brickExit (pointInBrick dir : vec3 F) (cubeBounds : BrickCorners)
    (corners : BrickCorners) : vec3 F :=
  let div := map3 (fdiv (float_of_uint 1)) dir in
  let side := map3 uint_of_float (map3 (fstep (float_of_uint 0)) div) in
  let tx := fmul (fsub (vx (cornerAt corners (vx side))) (vx pointInBrick)) (vx div) in
  let ty := fmul (fsub (vy (cornerAt corners (vy side))) (vy pointInBrick)) (vy div) in
  let tz := fmul (fsub (vz (cornerAt corners (vz side))) (vz pointInBrick)) (vz div) in
  let tx := fmin tx (fmul (fsub (vx (cornerAt cubeBounds (vx side))) (vx pointInBrick)) (vx div)) in
  let ty := fmin ty (fmul (fsub (vy (cornerAt cubeBounds (vy side))) (vy pointInBrick)) (vy div)) in
  let tz := fmin tz (fmul (fsub (vz (cornerAt cubeBounds (vz side))) (vz pointInBrick)) (vz div)) in
  zip3 fadd pointInBrick (map3 (fmul (fmin (fmin tx ty) tz)) dir).

Definition infoToCoords (brickInfo : Z) : vec3 Z :=
  let brickID := wrap32 (brickInfo - BI_FLAG_COUNT) in
  let cap := POOL_CAPACITY pool in
  mkVec3 (brickID mod vx cap)
         ((brickID / vx cap) mod vy cap)
         (brickID / wrap32 (vx cap * vy cap)).

Definition brickPoolCoords (brickInfo : Z) : BrickCorners :=
  let poolVoxelPos :=
    map3 (fun c => wrap32 (c * BRICK_SIZE pool)) (infoToCoords brickInfo) in
  mkCorners
    (zip3 fadd
       (zip3 fdiv (map3 float_of_uint poolVoxelPos) (POOL_SIZE pool))
       (OVERLAP_STEP pool))
    (zip3 fsub
       (zip3 fdiv
          (map3 float_of_uint
             (map3 (fun c => wrap32 (c + BRICK_SIZE pool)) poolVoxelPos))
          (POOL_SIZE pool))
       (OVERLAP_STEP pool)).

Record PoolBrickInformation : Type := mkPoolBrickInformation {
  poolEntryCoords : vec3 F;
  poolExitCoords : vec3 F;
  normToPoolScale : vec3 F;
  normToPoolTrans : vec3 F
}.

Definition normCoordsToPoolCoords (normEntryCoords normExitCoords : vec3 F)
    (corners : BrickCorners) (brickInfo : Z) : PoolBrickInformation :=
  let poolCorners := brickPoolCoords brickInfo in
  let scale :=
    zip3 fdiv (zip3 fsub (corner1 poolCorners) (corner0 poolCorners))
              (zip3 fsub (corner1 corners) (corner0 corners)) in
  let trans := zip3 fsub (corner0 poolCorners) (zip3 fmul (corner0 corners) scale) in
  mkPoolBrickInformation
    (zip3 fadd (zip3 fmul normEntryCoords scale) trans)
    (zip3 fadd (zip3 fmul normExitCoords scale) trans)
    scale trans.

(** [BrickInformation].  [poolBrickInfo] is [None] where the code returns
    before it assigns the field. *)
Record BrickInformation : Type := mkBrickInformation {
  LOD : Z;
  brickIndex : Z;
  empty : bool;
  substitute : bool;
  normExitCoords : vec3 F;
  poolBrickInfo : option PoolBrickInformation
}.

Section Resolver.
Context (normEntryCoords : vec3 F).
Context (brickMeta : Z -> Z) (levelArray : Z -> LevelData).

(** The residency word of the brick that holds [normEntryCoords] at
    level [lod]: the three statements that recur in [getBrick]. *)
Definition brickInfoAt (lod : Z) : Z :=
  brickMeta (getBrickIndex (computeBrickCoords normEntryCoords levelArray lod)
               levelArray).

(** Variables live across the [do { .. } while (brickInfo == BI_MISSING)]
    loop. *)
Record MissState : Type := mkMissState {
  ms_lastBrickIndex : Z;
  ms_LOD : Z;
  ms_brickCoords : uint4;
  ms_brickIndex : Z;
  ms_brickInfo : Z
}.

(** The [do .. while] loop; [fuel] bounds the number of times the body
    runs, and [None] means the bound was reached with the condition
    still true. *)
Fixpoint lookForLowerRes (fuel : nat) (lod brickIndex : Z)
    : option MissState :=
  match fuel with
  | O => None
  | S fuel' =>
      let lastBrickIndex := brickIndex in
      let lod' := wrap32 (lod + 1) in
      let brickCoords := computeBrickCoords normEntryCoords levelArray lod' in
      let brickIndex' := getBrickIndex brickCoords levelArray in
      let brickInfo := brickMeta brickIndex' in
      if brickInfo =? BI_MISSING
      then lookForLowerRes fuel' lod' brickIndex'
      else Some (mkMissState lastBrickIndex lod' brickCoords brickIndex' brickInfo)
  end.

(** The [for (uint lowResLOD = ..; lowResLOD < LEVEL_COUNT; ++lowResLOD)]
    loop from its counter [lowResLOD] on; [steps] is the number of values
    the counter can still take.  The result is the final
    (brickCoords, brickInfo, info.LOD).  The increment cannot wrap: it
    follows the test [lowResLOD < LEVEL_COUNT]. *)
Fixpoint skipEmptyFrom (steps : nat) (lowResLOD : Z)
    (cur : uint4 * Z * Z) : uint4 * Z * Z :=
  match steps with
  | O => cur
  | S steps' =>
      if lowResLOD <? LEVEL_COUNT cfg then
        let lowResBrickCoords :=
          computeBrickCoords normEntryCoords levelArray lowResLOD in
        let lowResBrickIndex := getBrickIndex lowResBrickCoords levelArray in
        let lowResBrickInfo := brickMeta lowResBrickIndex in
        if lowResBrickInfo =? BI_CHILD_EMPTY
        then skipEmptyFrom steps' (lowResLOD + 1)
               (lowResBrickCoords, lowResBrickInfo, lowResLOD)
        else cur
      else cur
  end.

Definition skipEmpty (brickCoords : uint4) (brickInfo lod : Z)
    : uint4 * Z * Z :=
  let lowResLOD := wrap32 (lod + 1) in
  skipEmptyFrom (Z.to_nat (LEVEL_COUNT cfg - lowResLOD)) lowResLOD
    (brickCoords, brickInfo, lod).
End Resolver.

(** [clamp(normEntryCoords, float3(0), float3(1))] *)
Definition clampEntry (normEntryCoords : vec3 F) : vec3 F :=
  map3 (fun c => fclamp c (float_of_uint 0) (float_of_uint 1)) normEntryCoords.

(** [getBrick].  The hash buffer is threaded through; the result is [None]
    when the [do .. while] loop is still running after [fuel] rounds.
    [spurious 0] and [spurious 1] are the behaviour of the exchanges of the
    first and of the second call of [reportMissingBrick]. *)
Definition getBrick (fuel : nat) (spurious : nat -> Z -> bool)
    (normEntryCoords : vec3 F) (iLOD : Z)
    (direction : vec3 F) (cubeBounds : BrickCorners)
    (brickMeta : Z -> Z) (levelArray : Z -> LevelData)
    (hashBuffer : list Z) (dontRequest : bool)
    : option (BrickInformation * list Z) :=
  let normEntryCoords := clampEntry normEntryCoords in
  let brickCoords := computeBrickCoords normEntryCoords levelArray iLOD in
  let brickIndex := getBrickIndex brickCoords levelArray in
  let brickInfo := brickMeta brickIndex in
  let info_brickIndex := brickIndex in
  let info_substitute := brickInfo =? BI_MISSING in
  (* cache miss *)
  let afterMiss : option (Z * uint4 * Z * list Z) :=
    if negb dontRequest && (brickInfo =? BI_MISSING) then
      let hashBuffer :=
        reportMissingBrick cfg (spurious 0%nat) brickIndex hashBuffer in
      let startLOD := iLOD in
      match lookForLowerRes normEntryCoords brickMeta levelArray fuel iLOD brickIndex with
      | None => None
      | Some st =>
          let hashBuffer :=
            if REQUEST_LOWRES_LOD cfg =? 1 then
              if startLOD <? ms_LOD st
              then reportMissingBrick cfg (spurious 1%nat)
                     (ms_lastBrickIndex st) hashBuffer
              else hashBuffer
            else hashBuffer in
          Some (ms_LOD st, ms_brickCoords st, ms_brickInfo st, hashBuffer)
      end
    else Some (iLOD, brickCoords, brickInfo, hashBuffer) in
  match afterMiss with
  | None => None
  | Some (info_LOD, brickCoords, brickInfo, hashBuffer) =>
      let info_empty := brickInfo <=? BI_EMPTY in
      let '(brickCoords, brickInfo, info_LOD) :=
        if info_empty
        then skipEmpty normEntryCoords brickMeta levelArray brickCoords brickInfo info_LOD
        else (brickCoords, brickInfo, info_LOD) in
      let corners := getBrickCorners brickCoords levelArray in
      let info_normExitCoords :=
        brickExit normEntryCoords direction cubeBounds corners in
      if info_empty then
        Some (mkBrickInformation info_LOD info_brickIndex info_empty
                info_substitute info_normExitCoords None, hashBuffer)
      else
        Some (mkBrickInformation info_LOD info_brickIndex info_empty
                info_substitute info_normExitCoords
                (Some (normCoordsToPoolCoords normEntryCoords
                         info_normExitCoords corners brickInfo)),
              hashBuffer)
  end.

(** Components of a [float3] lie between those of two others. *)
Definition between3 (lo p hi : vec3 F) : bool :=
  fleb (vx lo) (vx p) && fleb (vx p) (vx hi) &&
  fleb (vy lo) (vy p) && fleb (vy p) (vy hi) &&
  fleb (vz lo) (vz p) && fleb (vz p) (vz hi).

(** Components of a [float3] are not above those of another. *)
Definition below3 (p hi : vec3 F) : bool :=
  fleb (vx p) (vx hi) && fleb (vy p) (vy hi) && fleb (vz p) (vz hi).
End Atlas.

Arguments LevelData F : clear implicits.
Arguments PoolConfig F : clear implicits.
Arguments BrickCorners F : clear implicits.
Arguments PoolBrickInformation F : clear implicits.
Arguments BrickInformation F : clear implicits.

(** ** The level-of-detail law *)

(** [log2] of the Metal library. *)
Class MetalLog (F : Type) : Type := { flog2 : F -> F }.

(** The two [float] macros of [computeLOD]. *)
Record LODConfig (F : Type) : Type := mkLODConfig {
  LOD_FACTOR : F;
  LEVEL_ZERO_WORLD_SPACE_ERROR : F
}.
Arguments mkLODConfig {F} _ _.
Arguments LOD_FACTOR {F} _.
Arguments LEVEL_ZERO_WORLD_SPACE_ERROR {F} _.

Section LOD.
Context {F : Type} `{MetalFloat F} `{MetalLog F}.
Context (cfg : Config) (lodCfg : LODConfig F).

(** [computeLOD]: [uint(LEVEL_COUNT-1)] wraps, [uint(log2(..))] is the
    conversion of the [float] interface, and there is no lower clamp. *)
Definition computeLOD (dist : F) : Z :=
  Z.min (wrap32 (LEVEL_COUNT cfg - 1))
    (uint_of_float
       (flog2 (fdiv (fmul (LOD_FACTOR lodCfg) dist)
                 (LEVEL_ZERO_WORLD_SPACE_ERROR lodCfg)))).
End LOD.

(** [clamp(x, lo, hi)] of the specification, on integers. *)
Definition clampZ (x lo hi : Z) : Z := Z.min (Z.max x lo) hi.

(** ** Two instances of [float] *)

(** Out-of-range conversions to [uint] saturate. *)
Definition saturate32 (z : Z) : Z := Z.max 0 (Z.min z (2 ^ 32 - 1)).

(** Arithmetic without rounding: the rationals. *)
Module ExactFloat.
#[export] Instance exact : MetalFloat Q := {|
  fadd := Qplus;
  fsub := Qminus;
  fmul := Qmult;
  fdiv := Qdiv;
  fltb := fun a b => negb (Qle_bool b a);
  fleb := Qle_bool;
  float_of_uint := inject_Z;
  uint_of_float := fun q => saturate32 (Qfloor q)
|}.
End ExactFloat.

(** IEEE 754 binary32 with round-to-nearest-even: 24 bits of precision,
    exponents up to 128. *)
Module Binary32.
Definition prec : Z := 24.
Definition emax : Z := 128.

(** The integer part of a finite value, towards zero. *)
Definition truncate (f : spec_float) : Z :=
  match f with
  | S754_finite s m e =>
      let a := if (0 <=? e)%Z then (Z.pos m * 2 ^ e)%Z
               else (Z.pos m / 2 ^ (- e))%Z in
      if s then (- a)%Z else a
  | S754_infinity false => (2 ^ 32)%Z
  | S754_infinity true => (-1)%Z
  | _ => 0%Z
  end.

#[export] Instance binary32 : MetalFloat spec_float := {|
  fadd := SFadd prec emax;
  fsub := SFsub prec emax;
  fmul := SFmul prec emax;
  fdiv := SFdiv prec emax;
  fltb := SFltb;
  fleb := SFleb;
  float_of_uint := fun z => binary_normalize prec emax z 0 false;
  uint_of_float := fun f => saturate32 (truncate f)
|}.

(** [m * 2^e] as a binary32 value, [m] a 24-bit significand. *)
Definition lit (m : positive) (e : Z) : spec_float := S754_finite false m e.

(** The largest integer not above a finite value. *)
Definition floor (f : spec_float) : Z :=
  match f with
  | S754_finite s m e =>
      if (0 <=? e)%Z then (cond_Zopp s (Z.pos m) * 2 ^ e)%Z
      else (cond_Zopp s (Z.pos m) / 2 ^ (- e))%Z
  | _ => 0%Z
  end.

(** The rational [m * 2^e] that a significand and an exponent stand for. *)
Definition val (m e : Z) : Q := (inject_Z m * 2 ^ e)%Q.

(** What a rounding returns for the significand and the exponent it
    arrives at: a zero, a finite value, or an overflow. *)
Definition rounded (m e : Z) : spec_float :=
  match m with
  | Z0 => S754_zero false
  | Zpos p => if (e <=? 104)%Z then S754_finite false p e else S754_infinity false
  | Zneg _ => S754_nan
  end.

(** A binary32 value that is zero, or positive and finite. *)
Definition nonnegative (p : spec_float) : bool :=
  match p with
  | S754_zero _ => true
  | S754_finite false _ _ => valid_binary prec emax p
  | _ => false
  end.

(** A binary32 value that is positive and finite. *)
Definition positiveFinite (f : spec_float) : bool :=
  match f with
  | S754_finite false _ _ => valid_binary prec emax f
  | _ => false
  end.

(** One axis of a position and a layout for which the cell above the
    computed one has an index that binary32 represents exactly. *)
Definition addressable (p f : spec_float) : Prop :=
  nonnegative p = true /\ positiveFinite f = true /\
  (uint_of_float (fmul p f) + 1 < 2 ^ 24)%Z.

Definition addressable3 (p f : vec3 spec_float) : Prop :=
  addressable (vx p) (vx f) /\ addressable (vy p) (vy f) /\
  addressable (vz p) (vz f).

(** A stand-in for [log2] on sample data: exact on the powers of two,
    rounded down to an integer elsewhere. *)
Definition exponentLog2 (f : spec_float) : spec_float :=
  match f with
  | S754_finite false m e =>
      binary_normalize prec emax (Z.log2 (Z.pos m) + e) 0 false
  | S754_zero _ => S754_infinity true
  | S754_infinity false => S754_infinity false
  | _ => S754_nan
  end.
End Binary32.

(** ** Helper.h *)

(** The functions of the Metal library that [Helper.h] uses beyond the
    operators of [MetalFloat], and decimal literals. *)
Class MetalMath (F : Type) : Type := {
  fabs : F -> F;
  (** [copysign(x, y)]: the magnitude of [x] with the sign of [y] *)
  fcopysign : F -> F -> F;
  float_lit : Q -> F
}.

(** [half4] by its swizzles [.rgb] and [.a]. *)
Record color4 (F : Type) : Type := mkColor4 { rgb : vec3 F; alpha : F }.
Arguments mkColor4 {F} _ _.
Arguments rgb {F} _.
Arguments alpha {F} _.

(** [matrix_float4x4], by columns. *)
Record float4 (F : Type) : Type := mkFloat4 { f4x : F; f4y : F; f4z : F; f4w : F }.
Record float4x4 (F : Type) : Type :=
  mkFloat4x4 { col0 : float4 F; col1 : float4 F; col2 : float4 F; col3 : float4 F }.

(** [FragmentUniforms] *)
Record FragmentUniforms (F : Type) : Type := mkFragmentUniforms {
  isoValue : F;
  oversampling : F;
  transferBias : F;
  cameraPosInTextureSpace : vec3 F;
  cameraPosInTextureSpaceVoxelScaled : vec3 F;
  cubeBoundsOf : BrickCorners F;
  modelView : float4x4 F;
  modelViewIT : float4x4 F
}.
Arguments cubeBoundsOf {F} _.

Section Helper.
Context {F : Type} `{MetalFloat F} `{MetalMath F}.

Definition under (current last : color4 F) : color4 F :=
  let one := float_of_uint 1 in
  let zero := float_of_uint 0 in
  let weight := fmul (fsub one (alpha last)) (alpha current) in
  let last_rgb :=
    map3 (fun c => fclamp c zero one)
      (zip3 fadd (rgb last) (map3 (fmul weight) (rgb current))) in
  let last_a := fmin one (fadd (alpha last) weight) in
  mkColor4 last_rgb last_a.

(** One axis of [computeEntryPoint]: [t1] and [t2] after the swap. *)
Definition slabTimes (minB maxB p d : F) : F * F :=
  let eps := float_lit (1 # 1000000) in
  let denom := if fltb eps (fabs d) then d else fcopysign eps d in
  let t1 := fdiv (fsub minB p) denom in
  let t2 := fdiv (fsub maxB p) denom in
  if fltb d (float_of_uint 0) then (t2, t1) else (t1, t2).

Definition computeEntryPoint (P Q : vec3 F) (params : FragmentUniforms F)
    : vec3 F :=
  let minB := corner0 (cubeBoundsOf params) in
  let maxB := corner1 (cubeBoundsOf params) in
  if (fleb (vx minB) (vx P) && fleb (vx P) (vx maxB)) &&
     (fleb (vy minB) (vy P) && fleb (vy P) (vy maxB)) &&
     (fleb (vz minB) (vz P) && fleb (vz P) (vz maxB))
  then P
  else
    let d := zip3 fsub Q P in
    let '(tx1, tx2) := slabTimes (vx minB) (vx maxB) (vx P) (vx d) in
    let '(ty1, ty2) := slabTimes (vy minB) (vy maxB) (vy P) (vy d) in
    let '(tz1, tz2) := slabTimes (vz minB) (vz maxB) (vz P) (vz d) in
    let tEntry := fmax tx1 (fmax ty1 tz1) in
    let tExit := fmin tx2 (fmin ty2 tz2) in
    if fleb tEntry tExit && fleb (float_of_uint 0) tExit
    then zip3 fadd P (map3 (fmul tEntry) d)
    else P.

(** The [for (int i = ..; i < 5; i++)] loop of [refineIsosurface];
    [remaining] counts the iterations still to run and [sample] stands for
    [volume.sample(s, _).x]. *)
Fixpoint refineLoop (sample : vec3 F -> F) (fIsoval : F) (remaining : nat)
    (vRayDir vCurrentPos : vec3 F) : vec3 F :=
  match remaining with
  | O => vCurrentPos
  | S remaining' =>
      let vRayDir := map3 (fun c => fdiv c (float_of_uint 2)) vRayDir in
      let voxel := sample vCurrentPos in
      let vCurrentPos :=
        if fleb fIsoval voxel
        then zip3 fsub vCurrentPos vRayDir
        else zip3 fadd vCurrentPos vRayDir in
      if fltb (fabs (fsub voxel fIsoval)) (float_lit (1 # 1000))
      then vCurrentPos
      else refineLoop sample fIsoval remaining' vRayDir vCurrentPos
  end.

Definition refineIsosurface (vRayDir vCurrentPos : vec3 F) (fIsoval : F)
    (sample : vec3 F -> F) : vec3 F :=
  let vRayDir := map3 (fun c => fdiv c (float_of_uint 2)) vRayDir in
  let vCurrentPos := zip3 fsub vCurrentPos vRayDir in
  refineLoop sample fIsoval 5 vRayDir vCurrentPos.
End Helper.

(** The library functions in exact arithmetic. *)
Module ExactMath.
#[export] Instance exactMath : MetalMath Q := {|
  fabs := Qabs;
  fcopysign := fun x y => if Qle_bool 0 y then Qabs x else (- Qabs x)%Q;
  float_lit := fun q => q
|}.
End ExactMath.

(** ** Domains of the addressing functions *)

(** The cell [c] lies in the grid of [level]: [x] within a row, the row
    within a slice, and the index computed from it fits a [uint]. *)
Definition inGrid {F : Type} (level : LevelData F) (c : vec3 Z) : Prop :=
  0 <= prevBricks level /\
  0 <= vx c < bricksX level /\
  0 <= vy c /\
  vx c + vy c * bricksX level < bricksXTimesBricksY level /\
  0 <= vz c /\
  prevBricks level + vx c + vy c * bricksX level
    + vz c * bricksXTimesBricksY level < 2 ^ 32.

(** Componentwise equality of rational vectors. *)
Definition veq3 (u v : vec3 Q) : Prop :=
  (vx u == vx v)%Q /\ (vy u == vy v)%Q /\ (vz u == vz v)%Q.

(** Componentwise strict order of rational vectors. *)
Definition vlt3 (u v : vec3 Q) : Prop :=
  (vx u < vx v)%Q /\ (vy u < vy v)%Q /\ (vz u < vz v)%Q.

(** A cell whose successor still fits a [uint]. *)
Definition cellInRange (c : vec3 Z) : Prop :=
  0 <= vx c <= 2 ^ 32 - 2 /\ 0 <= vy c <= 2 ^ 32 - 2 /\ 0 <= vz c <= 2 ^ 32 - 2.

(** Every component is positive. *)
Definition positive3 (f : vec3 Q) : Prop :=
  (0 < vx f)%Q /\ (0 < vy f)%Q /\ (0 < vz f)%Q.

(** No component is zero. *)
Definition nonzero3 (d : vec3 Q) : Prop :=
  ~ (vx d == 0)%Q /\ ~ (vy d == 0)%Q /\ ~ (vz d == 0)%Q.

(** Every component exceeds the threshold 1e-6 of [computeEntryPoint] in
    magnitude. *)
Definition offAxis (d : vec3 Q) : Prop :=
  ((1 # 1000000) < Qabs (vx d))%Q /\
  ((1 # 1000000) < Qabs (vy d))%Q /\
  ((1 # 1000000) < Qabs (vz d))%Q.

(** Componentwise order of rational vectors. *)
Definition vle3 (u v : vec3 Q) : Prop :=
  (vx u <= vx v)%Q /\ (vy u <= vy v)%Q /\ (vz u <= vz v)%Q.


(** The position is in the unit cube. *)
Definition inUnitCube (p : vec3 Q) : Prop :=
  (0 <= vx p <= 1)%Q /\ (0 <= vy p <= 1)%Q /\ (0 <= vz p <= 1)%Q.

(** Every component of the layout is positive and leaves room for the
    cell above in a [uint]. *)
Definition layoutInRange (f : vec3 Q) : Prop :=
  (0 < vx f /\ vx f < inject_Z (2 ^ 32 - 1))%Q /\
  (0 < vy f /\ vy f < inject_Z (2 ^ 32 - 1))%Q /\
  (0 < vz f /\ vz f < inject_Z (2 ^ 32 - 1))%Q.

(** ** Sample data *)

(** The pool macros of [ShaderTypes.h], in exact arithmetic. *)
Definition demoPool : PoolConfig Q :=
  {| BRICK_SIZE := 64;
     OVERLAP_STEP := splat 1%Q;
     POOL_CAPACITY := splat 1%Z;
     POOL_SIZE := splat 1%Q |}.

(** A hierarchy with a single brick on every level: the brick of level [l]
    has index [l]. *)
Definition oneBrickLevels : Z -> LevelData Q :=
  fun l => mkLevelData 1 1 l (splat 1%Q).

(** A level of 4 x 4 x 4 bricks that follows ten bricks of other levels. *)
Definition gridLevels : Z -> LevelData Q :=
  fun _ => mkLevelData 4 16 10 (splat 4%Q).

(** A pool of 4 x 4 x 4 bricks. *)
Definition gridPool : PoolConfig Q :=
  {| BRICK_SIZE := 64;
     OVERLAP_STEP := splat 1%Q;
     POOL_CAPACITY := splat 4%Z;
     POOL_SIZE := splat 256%Q |}.

(** Uniforms whose cube bounds are the unit cube; the matrices are the
    identity. *)
Definition identity4 : float4x4 Q :=
  (mkFloat4x4 Q (mkFloat4 Q 1 0 0 0) (mkFloat4 Q 0 1 0 0)
                (mkFloat4 Q 0 0 1 0) (mkFloat4 Q 0 0 0 1))%Q.
Definition demoUniforms : FragmentUniforms Q :=
  mkFragmentUniforms Q (1 # 2)%Q 1%Q 0%Q (splat 0%Q) (splat 0%Q)
    (mkCorners (splat 0%Q) (splat 1%Q)) identity4 identity4.

(** A residency table given by its first words; the bricks beyond are
    resident in pool slot 0. *)
Definition metaOf (words : list Z) : Z -> Z :=
  fun i => nth (Z.to_nat i) words BI_FLAG_COUNT.

Definition demoEntry : vec3 Q := splat (1 # 2)%Q.
Definition demoDirection : vec3 Q := splat 1%Q.
Definition demoCube : BrickCorners Q := mkCorners (splat 0%Q) (splat 1%Q).

(** A binary32 layout of about 33.333 bricks per axis and a position just
    below 33/33.333 on every axis. *)
Definition roundedLevels : Z -> LevelData spec_float :=
  fun l => mkLevelData 34 1156 0 (splat (Binary32.lit 8738046 (-18))).
Definition roundedEntry : vec3 spec_float :=
  splat (Binary32.lit 16609609 (-24)).

(** The two macros of [computeLOD] as [ShaderTypes.h] sets them, 1.0 each,
    and the distance 0.25. *)
Definition demoLOD : LODConfig spec_float :=
  mkLODConfig (Binary32.lit 8388608 (-23)) (Binary32.lit 8388608 (-23)).
Definition quarter : spec_float := Binary32.lit 8388608 (-25).
Definition demoLog2 : MetalLog spec_float :=
  {| flog2 := Binary32.exponentLog2 |}.

(** * Properties *)

(** ** The miss-report table *)

Section HashtableFacts.
Context (cfg : Config).

Lemma cas_free (buf : list Z) (s : nat) (idx : Z) :
  buf !! s = Some EMPTY_SLOT ->
  atomic_compare_exchange_weak false buf s EMPTY_SLOT idx
    = (true, EMPTY_SLOT, <[s := idx]> buf).
Proof.
  intros Hs. unfold atomic_compare_exchange_weak. rewrite Hs.
  rewrite Z.eqb_refl. reflexivity.
Qed.

Lemma cas_taken (spurious : bool) (buf : list Z) (s : nat) (idx v : Z) :
  buf !! s = Some v -> v <> EMPTY_SLOT ->
  atomic_compare_exchange_weak spurious buf s EMPTY_SLOT idx = (false, v, buf).
Proof.
  intros Hs Hv. unfold atomic_compare_exchange_weak. rewrite Hs.
  destruct (Z.eqb_spec v EMPTY_SLOT); [contradiction | reflexivity].
Qed.

Lemma cas_outside (spurious : bool) (buf : list Z) (s : nat) (idx : Z) :
  buf !! s = None ->
  atomic_compare_exchange_weak spurious buf s EMPTY_SLOT idx
    = (false, EMPTY_SLOT, buf).
Proof.
  intros Hs. unfold atomic_compare_exchange_weak. rewrite Hs. reflexivity.
Qed.

(** A spurious failure on a free slot leaves the slot free and hands back
    the free marker. *)
Lemma cas_spurious (buf : list Z) (s : nat) (idx : Z) :
  buf !! s = Some EMPTY_SLOT ->
  atomic_compare_exchange_weak true buf s EMPTY_SLOT idx
    = (false, EMPTY_SLOT, buf).
Proof.
  intros Hs. unfold atomic_compare_exchange_weak. rewrite Hs.
  rewrite Z.eqb_refl. reflexivity.
Qed.

Lemma probeSlot_lt (h i : Z) :
  0 < HASHTABLE_SIZE cfg ->
  (probeSlot cfg h i < Z.to_nat (HASHTABLE_SIZE cfg))%nat.
Proof.
  intros HH. unfold probeSlot.
  pose proof (Z.mod_pos_bound (wrap32 (h + i)) (HASHTABLE_SIZE cfg) HH).
  lia.
Qed.

Lemma sized_lookup (buf : list Z) (h i : Z) :
  sized cfg buf -> exists v, buf !! probeSlot cfg h i = Some v.
Proof.
  intros [HH Hlen].
  destruct (lookup_lt_is_Some_2 buf (probeSlot cfg h i)) as [v Hv].
  - rewrite Hlen. apply probeSlot_lt, HH.
  - exists v. exact Hv.
Qed.

(** What one run of the probing loop does when no exchange fails
    spuriously: it gives up with the buffer as it was after [n] blocked
    probes, or its [k]-th probe is the first that is not blocked and either
    fills a free slot or finds [idx] there. *)
Lemma probeLoop_spec (spurious : Z -> bool) (n : nat) (idx h i : Z)
    (buf : list Z) :
  (forall j : Z, spurious j = false) ->
  sized cfg buf ->
  (probeLoop cfg spurious n idx h i buf = buf /\
     forall k : nat, (k < n)%nat -> blocked buf idx (probeSlot cfg h (i + Z.of_nat k)))
  \/ exists k : nat, (k < n)%nat /\
       (forall j : nat, (j < k)%nat ->
          blocked buf idx (probeSlot cfg h (i + Z.of_nat j))) /\
       ((buf !! probeSlot cfg h (i + Z.of_nat k) = Some EMPTY_SLOT /\
         probeLoop cfg spurious n idx h i buf
           = <[probeSlot cfg h (i + Z.of_nat k) := idx]> buf)
        \/ (buf !! probeSlot cfg h (i + Z.of_nat k) = Some idx /\
            probeLoop cfg spurious n idx h i buf = buf)).
Proof.
  intros Hrel Hsz. revert i. induction n as [|n IH]; intros i.
  - left. split; [reflexivity | intros k Hk; lia].
  - cbn [probeLoop]. rewrite Hrel.
    destruct (sized_lookup buf h i Hsz) as [v Hs].
    destruct (Z.eq_dec v EMPTY_SLOT) as [->|Hne].
    + rewrite (cas_free _ _ _ Hs). right. exists 0%nat.
      rewrite Z.add_0_r. split; [lia|]. split; [intros j Hj; lia|].
      left. split; [exact Hs | reflexivity].
    + rewrite (cas_taken _ _ _ _ _ Hs Hne).
      destruct (Z.eqb_spec v idx) as [->|Hvi].
      * right. exists 0%nat. rewrite Z.add_0_r.
        split; [lia|]. split; [intros j Hj; lia|].
        right. split; [exact Hs | reflexivity].
      * assert (Hb : blocked buf idx (probeSlot cfg h i)).
        { split; rewrite Hs; congruence. }
        destruct (IH (i + 1)) as [[Heq Hall] | (k & Hk & Hpre & Hk')].
        -- left. split; [exact Heq|]. intros [|k] Hk.
           ++ rewrite Z.add_0_r. exact Hb.
           ++ replace (i + Z.of_nat (S k)) with (i + 1 + Z.of_nat k) by lia.
              apply Hall. lia.
        -- right. exists (S k). split; [lia|].
           replace (i + Z.of_nat (S k)) with (i + 1 + Z.of_nat k) by lia.
           split; [|exact Hk'].
           intros [|j] Hj.
           ++ rewrite Z.add_0_r. exact Hb.
           ++ replace (i + Z.of_nat (S j)) with (i + 1 + Z.of_nat j) by lia.
              apply Hpre. lia.
Qed.

(** Whatever the buffer and whichever exchanges fail spuriously, a run
    changes at most one slot, and that slot was free. *)
Lemma probeLoop_cases (spurious : Z -> bool) (n : nat) (idx h i : Z)
    (buf : list Z) :
  probeLoop cfg spurious n idx h i buf = buf
  \/ exists s : nat, buf !! s = Some EMPTY_SLOT /\
       probeLoop cfg spurious n idx h i buf = <[s := idx]> buf.
Proof.
  revert i. induction n as [|n IH]; intros i; [left; reflexivity|].
  cbn [probeLoop]. unfold atomic_compare_exchange_weak.
  destruct (buf !! probeSlot cfg h i) as [v|] eqn:Hs.
  - destruct (Z.eqb_spec v EMPTY_SLOT) as [->|Hne].
    + destruct (spurious i); cbn [negb andb].
      * destruct (EMPTY_SLOT =? idx); [left; reflexivity | apply IH].
      * right. exists (probeSlot cfg h i). split; [exact Hs | reflexivity].
    + cbn [andb]. destruct (v =? idx); [left; reflexivity | apply IH].
  - destruct (EMPTY_SLOT =? idx); [left; reflexivity | apply IH].
Qed.

Lemma report_cases (spurious : Z -> bool) (idx : Z) (buf : list Z) :
  reportMissingBrick cfg spurious idx buf = buf
  \/ exists s : nat, buf !! s = Some EMPTY_SLOT /\
       reportMissingBrick cfg spurious idx buf = <[s := idx]> buf.
Proof. apply probeLoop_cases. Qed.

Lemma report_spec (spurious : Z -> bool) (idx : Z) (buf : list Z) :
  (forall j : Z, spurious j = false) ->
  sized cfg buf ->
  (reportMissingBrick cfg spurious idx buf = buf /\
     forall k : nat, (k < MAX_PROBING_ATTEMPTS cfg)%nat ->
       blocked buf idx (slotOf cfg idx k))
  \/ exists k : nat, (k < MAX_PROBING_ATTEMPTS cfg)%nat /\
       (forall j : nat, (j < k)%nat -> blocked buf idx (slotOf cfg idx j)) /\
       ((buf !! slotOf cfg idx k = Some EMPTY_SLOT /\
         reportMissingBrick cfg spurious idx buf = <[slotOf cfg idx k := idx]> buf)
        \/ (buf !! slotOf cfg idx k = Some idx /\
            reportMissingBrick cfg spurious idx buf = buf)).
Proof.
  intros Hrel Hsz. unfold reportMissingBrick, slotOf.
  pose proof (probeLoop_spec spurious (MAX_PROBING_ATTEMPTS cfg) idx
                (hashIndexOf cfg idx) 0 buf Hrel Hsz) as Hspec.
  setoid_rewrite Z.add_0_l in Hspec. exact Hspec.
Qed.

Lemma sized_report (spurious : Z -> bool) (idx : Z) (buf : list Z) :
  sized cfg buf -> sized cfg (reportMissingBrick cfg spurious idx buf).
Proof.
  intros [HH Hlen]. split; [exact HH|].
  destruct (report_cases spurious idx buf) as [-> | (s & _ & ->)];
    [exact Hlen | rewrite length_insert; exact Hlen].
Qed.

(** In a well-placed buffer an index occupies at most one slot. *)
Lemma wellPlaced_unique (buf : list Z) (v : Z) (s1 s2 : nat) :
  wellPlaced cfg buf -> v <> EMPTY_SLOT ->
  buf !! s1 = Some v -> buf !! s2 = Some v -> s1 = s2.
Proof.
  intros Hwp Hv H1 H2.
  destruct (Hwp s1 v H1 Hv) as (k1 & _ & -> & Hpre1).
  destruct (Hwp s2 v H2 Hv) as (k2 & _ & -> & Hpre2).
  destruct (lt_eq_lt_dec k1 k2) as [[Hlt | ->] | Hgt]; [| reflexivity |].
  - destruct (Hpre2 k1 Hlt) as [_ Hne]. contradiction.
  - destruct (Hpre1 k2 Hgt) as [_ Hne]. contradiction.
Qed.

(** Without spurious failures, reporting an index the buffer already holds
    changes nothing. *)
Lemma report_present (spurious : Z -> bool) (buf : list Z) (idx : Z) (s : nat) :
  (forall j : Z, spurious j = false) ->
  sized cfg buf -> wellPlaced cfg buf -> idx <> EMPTY_SLOT ->
  buf !! s = Some idx -> reportMissingBrick cfg spurious idx buf = buf.
Proof.
  intros Hrel Hsz Hwp Hidx Hs.
  destruct (report_spec spurious idx buf Hrel Hsz)
    as [[Heq _] | (k & Hk & Hpre & [[Hfree Heq] | [_ Heq]])];
    [exact Heq | | exact Heq].
  exfalso.
  destruct (Hwp s idx Hs Hidx) as (k0 & Hk0 & -> & Hpre0).
  destruct (lt_eq_lt_dec k k0) as [[Hlt | ->] | Hgt].
  - destruct (Hpre0 k Hlt) as [Hne _]. contradiction.
  - rewrite Hfree in Hs. congruence.
  - destruct (Hpre k0 Hgt) as [_ Hne]. contradiction.
Qed.

Lemma wellPlaced_report (spurious : Z -> bool) (idx : Z) (buf : list Z) :
  (forall j : Z, spurious j = false) ->
  sized cfg buf -> wellPlaced cfg buf ->
  wellPlaced cfg (reportMissingBrick cfg spurious idx buf).
Proof.
  intros Hrel Hsz Hwp.
  destruct (report_spec spurious idx buf Hrel Hsz)
    as [[Heq _] | (k & Hk & Hpre & [[Hfree Heq] | [_ Heq]])];
    rewrite Heq; [exact Hwp | | exact Hwp].
  destruct (Z.eq_dec idx EMPTY_SLOT) as [->|Hidx].
  { rewrite list_insert_id by exact Hfree. exact Hwp. }
  assert (Habsent : forall s : nat, buf !! s <> Some idx).
  { intros s Hs.
    pose proof (report_present spurious buf idx s Hrel Hsz Hwp Hidx Hs) as Hid.
    rewrite Heq in Hid.
    assert (Hl : <[slotOf cfg idx k := idx]> buf !! slotOf cfg idx k = Some idx).
    { apply list_lookup_insert_eq. apply lookup_lt_Some with EMPTY_SLOT. exact Hfree. }
    rewrite Hid, Hfree in Hl. congruence. }
  intros s v Hs Hv.
  destruct (Nat.eq_dec s (slotOf cfg idx k)) as [->|Hne].
  - rewrite list_lookup_insert_eq in Hs
      by (apply lookup_lt_Some with EMPTY_SLOT; exact Hfree).
    injection Hs as <-. exists k. split; [exact Hk|]. split; [reflexivity|].
    intros j Hj. destruct (Hpre j Hj) as [Hb1 Hb2].
    assert (slotOf cfg idx j <> slotOf cfg idx k).
    { intros E. rewrite E in Hb1. contradiction. }
    split; rewrite list_lookup_insert_ne by congruence; assumption.
  - rewrite list_lookup_insert_ne in Hs by congruence.
    destruct (Hwp s v Hs Hv) as (k0 & Hk0 & -> & Hpre0).
    exists k0. split; [exact Hk0|]. split; [reflexivity|].
    intros j Hj. destruct (Hpre0 j Hj) as [Hb1 Hb2].
    destruct (Nat.eq_dec (slotOf cfg v j) (slotOf cfg idx k)) as [E|E].
    + rewrite E. unfold blocked. rewrite list_lookup_insert_eq
        by (apply lookup_lt_Some with EMPTY_SLOT; exact Hfree).
      split; [congruence|]. intros [= ->]. exact (Habsent _ Hs).
    + split; rewrite list_lookup_insert_ne by congruence; assumption.
Qed.

Lemma sized_cleared : 0 < HASHTABLE_SIZE cfg -> sized cfg (clearedTable cfg).
Proof.
  intros HH. split; [exact HH|]. unfold clearedTable.
  apply length_replicate.
Qed.

Lemma wellPlaced_cleared : wellPlaced cfg (clearedTable cfg).
Proof.
  intros s v Hs Hv. unfold clearedTable in Hs.
  apply lookup_replicate in Hs. destruct Hs as [-> _]. contradiction.
Qed.

Lemma reliable_false (j : Z) : reliable j = false.
Proof. reflexivity. Qed.

(** A run without spurious failures, one call at a time. *)
Lemma reportAll_reliable_cons (i : Z) (indices : list Z) (buf : list Z) :
  reportAll cfg allReliable (i :: indices) buf
  = reportAll cfg allReliable indices (reportMissingBrick cfg reliable i buf).
Proof. reflexivity. Qed.

Lemma reportAll_invariant (indices : list Z) (buf : list Z) :
  sized cfg buf -> wellPlaced cfg buf ->
  sized cfg (reportAll cfg allReliable indices buf) /\
  wellPlaced cfg (reportAll cfg allReliable indices buf).
Proof.
  revert buf. induction indices as [|i indices IH]; intros buf Hsz Hwp.
  - split; assumption.
  - rewrite reportAll_reliable_cons.
    apply IH; [apply sized_report | apply wellPlaced_report];
      first [assumption | exact reliable_false].
Qed.

Lemma report_keeps (spurious : Z -> bool) (idx : Z) (buf : list Z)
    (s : nat) (v : Z) :
  buf !! s = Some v -> v <> EMPTY_SLOT ->
  reportMissingBrick cfg spurious idx buf !! s = Some v.
Proof.
  intros Hs Hv.
  destruct (report_cases spurious idx buf) as [-> | (s0 & Hfree & ->)];
    [exact Hs|].
  rewrite list_lookup_insert_ne; [exact Hs|].
  intros ->. rewrite Hfree in Hs. congruence.
Qed.

Lemma reportAll_keeps (spurious : nat -> Z -> bool) (indices : list Z)
    (buf : list Z) (s : nat) (v : Z) :
  buf !! s = Some v -> v <> EMPTY_SLOT ->
  reportAll cfg spurious indices buf !! s = Some v.
Proof.
  revert spurious buf.
  induction indices as [|i indices IH]; intros spurious buf Hs Hv;
    [exact Hs|].
  cbn [reportAll]. apply IH; [|exact Hv].
  apply report_keeps; assumption.
Qed.

Lemma covered_report (spurious : Z -> bool) (idx : Z) (buf : list Z)
    (occ : list nat) :
  covered buf occ ->
  exists occ' : list nat,
    (length occ' <= S (length occ))%nat /\
    covered (reportMissingBrick cfg spurious idx buf) occ'.
Proof.
  intros Hc.
  destruct (report_cases spurious idx buf) as [-> | (s0 & Hfree & ->)].
  - exists occ. split; [lia | exact Hc].
  - exists (s0 :: occ). split; [cbn; lia|].
    intros s v Hs Hv. destruct (Nat.eq_dec s0 s) as [->|Hne].
    + apply list_elem_of_here.
    + apply list_elem_of_further. rewrite list_lookup_insert_ne in Hs by exact Hne.
      exact (Hc s v Hs Hv).
Qed.

(** The probes of one call address pairwise different slots. *)
Lemma slotOf_inj (idx : Z) (k1 k2 : nat) :
  0 < HASHTABLE_SIZE cfg ->
  Z.of_nat (MAX_PROBING_ATTEMPTS cfg) <= HASHTABLE_SIZE cfg ->
  HASHTABLE_SIZE cfg + Z.of_nat (MAX_PROBING_ATTEMPTS cfg) <= 2 ^ 32 ->
  (k1 < MAX_PROBING_ATTEMPTS cfg)%nat -> (k2 < MAX_PROBING_ATTEMPTS cfg)%nat ->
  slotOf cfg idx k1 = slotOf cfg idx k2 -> k1 = k2.
Proof.
  intros HH HM Hfit Hk1 Hk2. unfold slotOf, probeSlot.
  set (h := hashIndexOf cfg idx).
  assert (Hh : 0 <= h < HASHTABLE_SIZE cfg)
    by (apply Z.mod_pos_bound; exact HH).
  unfold wrap32.
  rewrite (Z.mod_small (h + Z.of_nat k1) (2 ^ 32)) by lia.
  rewrite (Z.mod_small (h + Z.of_nat k2) (2 ^ 32)) by lia.
  intros E.
  pose proof (Z.mod_pos_bound (h + Z.of_nat k1) _ HH).
  pose proof (Z.mod_pos_bound (h + Z.of_nat k2) _ HH).
  apply Z2Nat.inj in E; [|lia|lia].
  pose proof (Z.div_mod (h + Z.of_nat k1) (HASHTABLE_SIZE cfg) ltac:(lia)) as D1.
  pose proof (Z.div_mod (h + Z.of_nat k2) (HASHTABLE_SIZE cfg) ltac:(lia)) as D2.
  rewrite E in D1.
  set (q1 := (h + Z.of_nat k1) / HASHTABLE_SIZE cfg) in *.
  set (q2 := (h + Z.of_nat k2) / HASHTABLE_SIZE cfg) in *.
  assert (Hq : HASHTABLE_SIZE cfg * (q1 - q2) = Z.of_nat k1 - Z.of_nat k2) by lia.
  destruct (Z.lt_trichotomy q1 q2) as [Hlt | [Heq | Hgt]].
  - assert (HASHTABLE_SIZE cfg * (q1 - q2) <= - HASHTABLE_SIZE cfg) by nia. lia.
  - rewrite Heq, Z.sub_diag, Z.mul_0_r in Hq. lia.
  - assert (HASHTABLE_SIZE cfg <= HASHTABLE_SIZE cfg * (q1 - q2)) by nia. lia.
Qed.

(** With fewer than [MAX_PROBING_ATTEMPTS] slots taken and no spurious
    failure, a report finds a place. *)
Lemma report_stores (spurious : Z -> bool) (idx : Z) (buf : list Z)
    (occ : list nat) :
  (forall j : Z, spurious j = false) ->
  sized cfg buf -> covered buf occ ->
  Z.of_nat (MAX_PROBING_ATTEMPTS cfg) <= HASHTABLE_SIZE cfg ->
  HASHTABLE_SIZE cfg + Z.of_nat (MAX_PROBING_ATTEMPTS cfg) <= 2 ^ 32 ->
  (length occ < MAX_PROBING_ATTEMPTS cfg)%nat ->
  exists s : nat, reportMissingBrick cfg spurious idx buf !! s = Some idx.
Proof.
  intros Hrel Hsz Hc HM Hfit Hocc.
  destruct (report_spec spurious idx buf Hrel Hsz)
    as [[_ Hall] | (k & Hk & _ & [[Hfree ->] | [Hthere ->]])].
  - exfalso.
    set (window := slotOf cfg idx <$> seq 0 (MAX_PROBING_ATTEMPTS cfg)).
    assert (Hnd : NoDup window).
    { apply NoDup_fmap_2_strong; [|apply NoDup_seq].
      intros a b Ha Hb. apply elem_of_seq in Ha, Hb.
      apply slotOf_inj; [apply Hsz | exact HM | exact Hfit | lia | lia]. }
    assert (Hsub : forall s : nat, s ∈ window -> s ∈ occ).
    { intros s Hs. apply list_elem_of_fmap in Hs. destruct Hs as (k & -> & Hk).
      apply elem_of_seq in Hk.
      destruct (Hall k ltac:(lia)) as [Hb _].
      destruct (sized_lookup buf (hashIndexOf cfg idx) (Z.of_nat k) Hsz) as [v Hv].
      apply (Hc _ v); [exact Hv|]. intros ->. contradiction. }
    pose proof (submseteq_length _ _ (NoDup_submseteq _ _ Hnd Hsub)) as Hle.
    unfold window in Hle. rewrite length_fmap, length_seq in Hle. lia.
  - exists (slotOf cfg idx k). apply list_lookup_insert_eq.
    apply lookup_lt_Some with EMPTY_SLOT. exact Hfree.
  - exists (slotOf cfg idx k). exact Hthere.
Qed.

Lemma reportAll_stores (indices : list Z) (buf : list Z) (occ : list nat) :
  sized cfg buf -> covered buf occ ->
  Z.of_nat (MAX_PROBING_ATTEMPTS cfg) <= HASHTABLE_SIZE cfg ->
  HASHTABLE_SIZE cfg + Z.of_nat (MAX_PROBING_ATTEMPTS cfg) <= 2 ^ 32 ->
  (length indices + length occ <= MAX_PROBING_ATTEMPTS cfg)%nat ->
  (forall i : Z, In i indices -> i <> EMPTY_SLOT) ->
  forall i : Z, In i indices ->
    exists s : nat, reportAll cfg allReliable indices buf !! s = Some i.
Proof.
  intros Hsz Hc HM Hfit. revert buf occ Hsz Hc.
  induction indices as [|j indices IH]; intros buf occ Hsz Hc Hlen Hne i Hi;
    [destruct Hi|].
  rewrite reportAll_reliable_cons. cbn in Hlen.
  destruct Hi as [-> | Hi].
  - destruct (report_stores reliable i buf occ reliable_false Hsz Hc HM Hfit
                ltac:(lia)) as [s Hs].
    exists s. apply reportAll_keeps; [exact Hs|]. apply Hne. left. reflexivity.
  - destruct (covered_report reliable j buf occ Hc) as (occ' & Hocc' & Hc').
    apply (IH (reportMissingBrick cfg reliable j buf) occ');
      [apply sized_report; exact Hsz | exact Hc' | lia | | exact Hi].
    intros i' Hi'. apply Hne. right. exact Hi'.
Qed.

Lemma covered_cleared : covered (clearedTable cfg) [].
Proof.
  intros s v Hs Hv. unfold clearedTable in Hs.
  apply lookup_replicate in Hs. destruct Hs as [-> _]. contradiction.
Qed.

(** C10. [reportMissingBrick] never overwrites an occupied slot: a slot
    that holds a word other than the free marker holds the same word after
    the call, and the call either leaves the buffer as it is or turns one
    free slot into [idx].  This holds whichever exchanges fail
    spuriously. *)
Theorem C10_reportMissingBrick_preserves_occupied (spurious : Z -> bool)
    (idx : Z) (buf : list Z) :
  (forall (s : nat) (v : Z),
      buf !! s = Some v -> v <> EMPTY_SLOT ->
      reportMissingBrick cfg spurious idx buf !! s = Some v)
  /\ (reportMissingBrick cfg spurious idx buf = buf
      \/ exists s : nat, buf !! s = Some EMPTY_SLOT /\
           reportMissingBrick cfg spurious idx buf = <[s := idx]> buf).
Proof.
  unfold reportMissingBrick.
  destruct (probeLoop_cases spurious (MAX_PROBING_ATTEMPTS cfg) idx
              (hashIndexOf cfg idx) 0 buf)
    as [Heq | (s0 & Hfree & Heq)]; rewrite Heq.
  - split; [intros s v Hs _; exact Hs | left; reflexivity].
  - split.
    + intros s v Hs Hv.
      rewrite list_lookup_insert_ne; [exact Hs|].
      intros ->. rewrite Hfree in Hs. congruence.
    + right. exists s0. split; [exact Hfree | reflexivity].
Qed.

Lemma probeLoop_all_blocked (spurious : Z -> bool) (n : nat) (idx h i : Z)
    (buf : list Z) :
  (forall k : nat, (k < n)%nat ->
     exists v : Z, buf !! probeSlot cfg h (i + Z.of_nat k) = Some v /\
                   v <> EMPTY_SLOT /\ v <> idx) ->
  probeLoop cfg spurious n idx h i buf = buf.
Proof.
  revert i. induction n as [|n IH]; intros i Hall; [reflexivity|].
  cbn [probeLoop].
  destruct (Hall 0%nat ltac:(lia)) as (v & Hs & Hv & Hvi).
  rewrite Z.add_0_r in Hs. rewrite (cas_taken _ _ _ _ _ Hs Hv).
  destruct (Z.eqb_spec v idx); [contradiction|].
  apply IH. intros k Hk.
  replace (i + 1 + Z.of_nat k) with (i + Z.of_nat (S k)) by lia.
  apply Hall. lia.
Qed.

(** C6. When each of the [MAX_PROBING_ATTEMPTS] probed slots holds a word
    that is neither the free marker nor [idx], the call returns the buffer
    unchanged: the report is dropped.  This holds whichever exchanges fail
    spuriously. *)
Theorem C6_reportMissingBrick_drops_when_window_full (spurious : Z -> bool)
    (idx : Z) (buf : list Z) :
  (forall k : nat, (k < MAX_PROBING_ATTEMPTS cfg)%nat ->
     exists v : Z, buf !! slotOf cfg idx k = Some v /\
                   v <> EMPTY_SLOT /\ v <> idx) ->
  reportMissingBrick cfg spurious idx buf = buf.
Proof.
  intros Hall. unfold reportMissingBrick.
  apply probeLoop_all_blocked. intros k Hk. rewrite Z.add_0_l.
  apply Hall, Hk.
Qed.

(** C5, as amended.  When no compare-exchange fails spuriously, reporting
    is idempotent.  On a table reached from the cleared one by any run of
    such reports, reporting again an index [idx] (a brick index, so not the
    free marker) that the table holds leaves the table as it is; after any
    number [n] of further reports of [idx] the table is still the same and
    holds [idx] in exactly one slot. *)
Theorem C5_reportMissingBrick_idempotent (indices : list Z) (idx : Z) (n : nat) :
  0 < HASHTABLE_SIZE cfg ->
  idx <> EMPTY_SLOT ->
  (exists s : nat,
      reportAll cfg allReliable indices (clearedTable cfg) !! s = Some idx) ->
  reportMissingBrick cfg reliable idx
    (reportAll cfg allReliable indices (clearedTable cfg))
    = reportAll cfg allReliable indices (clearedTable cfg)
  /\ reportAll cfg allReliable (replicate n idx)
       (reportAll cfg allReliable indices (clearedTable cfg))
    = reportAll cfg allReliable indices (clearedTable cfg)
  /\ presentOnce idx
       (reportAll cfg allReliable (replicate n idx)
          (reportAll cfg allReliable indices (clearedTable cfg))).
Proof.
  intros HH Hidx [s Hs].
  destruct (reportAll_invariant indices (clearedTable cfg)
              (sized_cleared HH) wellPlaced_cleared) as [Hsz Hwp].
  set (buf := reportAll cfg allReliable indices (clearedTable cfg)) in *.
  pose proof (report_present reliable buf idx s reliable_false Hsz Hwp Hidx Hs)
    as Hid.
  assert (Hrep : reportAll cfg allReliable (replicate n idx) buf = buf).
  { induction n as [|n IHn]; [reflexivity|].
    cbn [replicate]. rewrite reportAll_reliable_cons, Hid. exact IHn. }
  split; [exact Hid|]. split; [exact Hrep|].
  rewrite Hrep. exists s. split; [exact Hs|].
  intros s' Hs'. exact (wellPlaced_unique buf idx s' s Hwp Hidx Hs' Hs).
Qed.

(** C2, as amended.  When no compare-exchange fails spuriously: no index
    other than the free marker ever sits in two slots of a table reached
    from the cleared one, whatever the number of reports; and when at most
    [MAX_PROBING_ATTEMPTS] reports are made (none of the free marker, table
    at least as large as the probe window and addressable with 32 bits),
    each reported index ends up in exactly one slot. *)
Theorem C2_reports_kept_up_to_probe_limit (indices : list Z) :
  0 < HASHTABLE_SIZE cfg ->
  (forall (i : Z) (s1 s2 : nat),
      i <> EMPTY_SLOT ->
      reportAll cfg allReliable indices (clearedTable cfg) !! s1 = Some i ->
      reportAll cfg allReliable indices (clearedTable cfg) !! s2 = Some i ->
      s1 = s2)
  /\ (Z.of_nat (MAX_PROBING_ATTEMPTS cfg) <= HASHTABLE_SIZE cfg ->
      HASHTABLE_SIZE cfg + Z.of_nat (MAX_PROBING_ATTEMPTS cfg) <= 2 ^ 32 ->
      (length indices <= MAX_PROBING_ATTEMPTS cfg)%nat ->
      (forall i : Z, In i indices -> i <> EMPTY_SLOT) ->
      forall i : Z, In i indices ->
        presentOnce i (reportAll cfg allReliable indices (clearedTable cfg))).
Proof.
  intros HH.
  destruct (reportAll_invariant indices (clearedTable cfg)
              (sized_cleared HH) wellPlaced_cleared) as [Hsz Hwp].
  split.
  - intros i s1 s2 Hi H1 H2. exact (wellPlaced_unique _ i s1 s2 Hwp Hi H1 H2).
  - intros HM Hfit Hlen Hne i Hi.
    destruct (reportAll_stores indices (clearedTable cfg) []
                (sized_cleared HH) covered_cleared HM Hfit
                ltac:(cbn; lia) Hne i Hi) as [s Hs].
    exists s. split; [exact Hs|].
    intros s' Hs'. exact (wellPlaced_unique _ i s' s Hwp (Hne i Hi) Hs' Hs).
Qed.

Lemma presentOnce_existsb (idx : Z) (buf : list Z) :
  presentOnce idx buf -> existsb (Z.eqb idx) buf = true.
Proof.
  intros (s & Hs & _). apply existsb_exists. exists idx.
  split; [|apply Z.eqb_refl].
  apply list_elem_of_In. exact (list_elem_of_lookup_2 _ _ _ Hs).
Qed.
End HashtableFacts.

Lemma C6_witness : reportMissingBrick dummy reliable 0 crowded = crowded.
Proof.
  apply (C6_reportMissingBrick_drops_when_window_full dummy reliable 0 crowded).
  intros k Hk. cbn in Hk.
  do 10 (destruct k as [|k];
         [eexists; split; [vm_compute; reflexivity | split; discriminate] |]).
  lia.
Defined.

Lemma C5_witness :
  reportMissingBrick dummy reliable 42
    (reportAll dummy allReliable [7; 42] (clearedTable dummy))
    = reportAll dummy allReliable [7; 42] (clearedTable dummy)
  /\ reportAll dummy allReliable (replicate 3 42)
       (reportAll dummy allReliable [7; 42] (clearedTable dummy))
    = reportAll dummy allReliable [7; 42] (clearedTable dummy)
  /\ presentOnce 42
       (reportAll dummy allReliable (replicate 3 42)
          (reportAll dummy allReliable [7; 42] (clearedTable dummy))).
Proof.
  apply (C5_reportMissingBrick_idempotent dummy [7; 42] 42 3).
  - reflexivity.
  - discriminate.
  - exists 10%nat. vm_compute. reflexivity.
Defined.

(** C5 as the claim states it fails when a compare-exchange fails
    spuriously.  On the cleared table of [dummy], a report of 42 whose first
    exchange fails spuriously on the free slot 10 stores 42 in slot 11; a
    second report of 42, with no failure, finds slot 10 free and stores 42
    there: the table has changed and holds 42 twice. *)
Lemma C5_counterexample :
  reportMissingBrick dummy firstFails 42 (clearedTable dummy) !! 11%nat = Some 42 /\
  reportMissingBrick dummy reliable 42
    (reportMissingBrick dummy firstFails 42 (clearedTable dummy))
  <> reportMissingBrick dummy firstFails 42 (clearedTable dummy) /\
  reportMissingBrick dummy reliable 42
    (reportMissingBrick dummy firstFails 42 (clearedTable dummy)) !! 10%nat
  = Some 42 /\
  reportMissingBrick dummy reliable 42
    (reportMissingBrick dummy firstFails 42 (clearedTable dummy)) !! 11%nat
  = Some 42.
Proof.
  split; [vm_compute; reflexivity|].
  split; [vm_compute; discriminate|].
  split; vm_compute; reflexivity.
Qed.

(** C2 as the claim states it fails on the table of [dummy], even when no
    compare-exchange fails spuriously: the eleven pairwise different indices
    of [clash], fewer than 128 - 10, all start probing at slot 0, and the
    last of them, 1280, is not in the table after the eleven reports. *)
Lemma C2_counterexample :
  NoDup clash /\
  Z.of_nat (length clash)
    <= HASHTABLE_SIZE dummy - Z.of_nat (MAX_PROBING_ATTEMPTS dummy) /\
  In 1280 clash /\
  ~ presentOnce 1280 (reportAll dummy allReliable clash (clearedTable dummy)).
Proof.
  split; [|split; [|split]].
  - apply NoDup_ListNoDup. vm_compute.
    repeat (constructor; [cbn; intuition discriminate|]). constructor.
  - vm_compute. discriminate.
  - vm_compute. tauto.
  - intros Hp. apply presentOnce_existsb in Hp. vm_compute in Hp. discriminate.
Qed.

Lemma C2_witness :
  presentOnce 256 (reportAll dummy allReliable [0; 128; 256] (clearedTable dummy)).
Proof.
  apply (C2_reports_kept_up_to_probe_limit dummy [0; 128; 256]).
  - reflexivity.
  - vm_compute. discriminate.
  - vm_compute. discriminate.
  - cbn. lia.
  - intros i Hi. cbn in Hi. intuition (subst; discriminate).
  - cbn. tauto.
Defined.

(** ** The brick resolver *)

Section AtlasFacts.
Context {F : Type} `{MetalFloat F}.
Context (cfg : Config) (pool : PoolConfig F).
Context (p : vec3 F) (brickMeta : Z -> Z) (levelArray : Z -> LevelData F).

Local Abbreviation stateAt := (brickInfoAt p brickMeta levelArray).

Lemma wrap32_uint (z : Z) : is_uint (wrap32 z).
Proof. unfold is_uint, wrap32. apply Z.mod_pos_bound. lia. Qed.

Lemma wrap32_small (z : Z) : is_uint z -> wrap32 z = z.
Proof. intros Hz. apply Z.mod_small. exact Hz. Qed.

(** More rounds than needed do not change what the [do .. while] loop
    returns. *)
Lemma lookForLowerRes_more (fuel extra : nat) (lod idx : Z) (st : MissState) :
  lookForLowerRes p brickMeta levelArray fuel lod idx = Some st ->
  lookForLowerRes p brickMeta levelArray (fuel + extra) lod idx = Some st.
Proof.
  revert lod idx. induction fuel as [|fuel IH]; intros lod idx; [discriminate|].
  cbn [lookForLowerRes Nat.add].
  destruct (_ =? BI_MISSING); [apply IH | trivial].
Qed.

(** What the loop returns is the state of the level it stopped at, and
    every level it passed is missing. *)
Lemma lookForLowerRes_sound (fuel : nat) (lod idx : Z) (st : MissState) :
  lookForLowerRes p brickMeta levelArray fuel lod idx = Some st ->
  is_uint (ms_LOD st) /\
  ms_brickCoords st = computeBrickCoords p levelArray (ms_LOD st) /\
  ms_brickIndex st = getBrickIndex (ms_brickCoords st) levelArray /\
  ms_brickInfo st = stateAt (ms_LOD st) /\
  ms_brickInfo st <> BI_MISSING.
Proof.
  revert lod idx. induction fuel as [|fuel IH]; intros lod idx; [discriminate|].
  cbn [lookForLowerRes].
  destruct (Z.eqb_spec
              (brickMeta (getBrickIndex
                 (computeBrickCoords p levelArray (wrap32 (lod + 1))) levelArray))
              BI_MISSING) as [E|E].
  - apply IH.
  - intros [= <-]. cbn. repeat split; try apply wrap32_uint; exact E.
Qed.

(** When some level [top] above [lod] is not missing, [top - lod] rounds
    are enough, and the loop stops at or below [top]. *)
Lemma lookForLowerRes_reaches (top : Z) (fuel : nat) (lod idx : Z) :
  0 <= lod < top -> top < 2 ^ 32 ->
  stateAt top <> BI_MISSING ->
  (Z.to_nat (top - lod) <= fuel)%nat ->
  exists st : MissState,
    lookForLowerRes p brickMeta levelArray fuel lod idx = Some st /\
    lod < ms_LOD st <= top.
Proof.
  intros Hlod Htop Hres. revert lod idx Hlod.
  induction fuel as [|fuel IH]; intros lod idx Hlod Hfuel; [lia|].
  cbn [lookForLowerRes].
  rewrite (wrap32_small (lod + 1)) by (unfold is_uint; lia).
  destruct (Z.eqb_spec
              (brickMeta (getBrickIndex
                 (computeBrickCoords p levelArray (lod + 1)) levelArray))
              BI_MISSING) as [E|E].
  - destruct (Z.eq_dec (lod + 1) top) as [Et|Et].
    + exfalso. apply Hres. unfold brickInfoAt. rewrite <- Et. exact E.
    + destruct (IH (lod + 1) (getBrickIndex
                 (computeBrickCoords p levelArray (lod + 1)) levelArray))
        as (st & Hst & Hb); [lia | lia |].
      exists st. split; [exact Hst | lia].
  - eexists. split; [reflexivity|]. cbn. lia.
Qed.

(** The levels the loop passes: it stops after some [n + 1] rounds at the
    level [n + 1] above [lod] (modulo 2^32), every level between is
    missing, and the index it remembers is the one handed in, or the index
    of the brick [n] levels above [lod]. *)
Lemma lookForLowerRes_trace (fuel : nat) (lod idx : Z) (st : MissState) :
  lookForLowerRes p brickMeta levelArray fuel lod idx = Some st ->
  exists n : nat,
    (n < fuel)%nat /\
    ms_LOD st = wrap32 (lod + Z.of_nat (S n)) /\
    (forall j : nat, (0 < j <= n)%nat ->
       stateAt (wrap32 (lod + Z.of_nat j)) = BI_MISSING) /\
    ms_lastBrickIndex st
      = match n with
        | O => idx
        | S _ => getBrickIndex
                   (computeBrickCoords p levelArray (wrap32 (lod + Z.of_nat n)))
                   levelArray
        end.
Proof.
  revert lod idx. induction fuel as [|fuel IH]; intros lod idx; [discriminate|].
  cbn [lookForLowerRes].
  assert (Hw : forall k : Z, wrap32 (wrap32 (lod + 1) + k) = wrap32 (lod + (1 + k))).
  { intros k. unfold wrap32. rewrite Zplus_mod_idemp_l. f_equal. lia. }
  destruct (Z.eqb_spec
              (brickMeta (getBrickIndex
                 (computeBrickCoords p levelArray (wrap32 (lod + 1))) levelArray))
              BI_MISSING) as [E|E].
  - intros Hst. destruct (IH _ _ Hst) as (n & Hn & HL & Hpass & Hlast).
    exists (S n). split; [lia|]. split; [|split].
    + rewrite HL, Hw. f_equal. lia.
    + intros j Hj. destruct (Nat.eq_dec j 1%nat) as [->|Hj1]; [exact E|].
      replace (lod + Z.of_nat j) with (lod + (1 + Z.of_nat (j - 1))) by lia.
      rewrite <- Hw. apply Hpass. lia.
    + rewrite Hlast. destruct n as [|n].
      * reflexivity.
      * rewrite Hw. do 3 f_equal. lia.
  - intros [= Hst]. rewrite <- Hst. exists 0%nat. cbn [ms_LOD ms_lastBrickIndex].
    split; [lia|]. split; [reflexivity|]. split; [intros j Hj; lia | reflexivity].
Qed.

(** [LEVEL_COUNT - lowResLOD] steps cover every value the counter of the
    [for] loop can take: more steps give the same result. *)
Lemma skipEmptyFrom_more (steps extra : nat) (low : Z) (cur : uint4 * Z * Z) :
  (Z.to_nat (LEVEL_COUNT cfg - low) <= steps)%nat ->
  skipEmptyFrom cfg p brickMeta levelArray (steps + extra) low cur
    = skipEmptyFrom cfg p brickMeta levelArray steps low cur.
Proof.
  revert low cur. induction steps as [|steps IH]; intros low cur Hsteps.
  - destruct extra as [|extra]; [reflexivity|]. cbn [Nat.add skipEmptyFrom].
    destruct (Z.ltb_spec low (LEVEL_COUNT cfg)); [lia | reflexivity].
  - cbn [Nat.add skipEmptyFrom].
    destruct (Z.ltb_spec low (LEVEL_COUNT cfg)); [|reflexivity].
    destruct (_ =? BI_CHILD_EMPTY); [|reflexivity].
    apply IH. lia.
Qed.

(** The result of the [for] loop: the level it ends on is the one it
    started from or a level whose state is [BI_CHILD_EMPTY]; all levels
    from the counter's first value up to it are [BI_CHILD_EMPTY]; the next
    level, when there is one, is not. *)
Lemma skipEmptyFrom_spec (steps : nat) (low : Z) (bc : uint4) (bi lod : Z) :
  (Z.to_nat (LEVEL_COUNT cfg - low) <= steps)%nat ->
  let r := skipEmptyFrom cfg p brickMeta levelArray steps low (bc, bi, lod) in
  (r = (bc, bi, lod) /\ (low < LEVEL_COUNT cfg -> stateAt low <> BI_CHILD_EMPTY))
  \/ (exists lod' : Z,
        r = (computeBrickCoords p levelArray lod', BI_CHILD_EMPTY, lod') /\
        low <= lod' < LEVEL_COUNT cfg /\
        (forall l : Z, low <= l <= lod' -> stateAt l = BI_CHILD_EMPTY) /\
        (lod' + 1 < LEVEL_COUNT cfg -> stateAt (lod' + 1) <> BI_CHILD_EMPTY)).
Proof.
  revert low bc bi lod. induction steps as [|steps IH]; intros low bc bi lod Hsteps.
  - left. split; [reflexivity | lia].
  - cbn [skipEmptyFrom].
    destruct (Z.ltb_spec low (LEVEL_COUNT cfg)) as [Hlt|Hge];
      [|left; split; [reflexivity | lia]].
    fold (brickInfoAt p brickMeta levelArray low).
    destruct (Z.eqb_spec (stateAt low) BI_CHILD_EMPTY) as [E|E];
      [|left; split; [reflexivity | intros _; exact E]].
    right.
    destruct (IH (low + 1) (computeBrickCoords p levelArray low) (stateAt low) low)
      as [[Hr Hnext] | (lod' & Hr & Hb & Hall & Hnext)]; [lia | |].
    + exists low. rewrite Hr, E. split; [reflexivity|].
      split; [lia|]. split; [|exact Hnext].
      intros l Hl. replace l with low by lia. exact E.
    + exists lod'. rewrite Hr. split; [reflexivity|].
      split; [lia|]. split; [|exact Hnext].
      intros l Hl. destruct (Z.eq_dec l low) as [->|Hne]; [exact E|].
      apply Hall. lia.
Qed.
End AtlasFacts.

Section GetBrickFacts.
Context {F : Type} `{MetalFloat F}.
Context (cfg : Config) (pool : PoolConfig F).
Context (entry : vec3 F) (direction : vec3 F) (cubeBounds : BrickCorners F).
Context (brickMeta : Z -> Z) (levelArray : Z -> LevelData F).
Context (spurious : nat -> Z -> bool).

Local Abbreviation stateAt := (brickInfoAt (clampEntry entry) brickMeta levelArray).
Local Abbreviation resolve :=
  (fun fuel iLOD => getBrick cfg pool fuel spurious entry iLOD direction cubeBounds
                      brickMeta levelArray).

(** The resolver does not depend on the bound once it has returned. *)
Lemma getBrick_more (fuel extra : nat) (iLOD : Z) (hb : list Z)
    (dontRequest : bool) (r : BrickInformation F * list Z) :
  resolve fuel iLOD hb dontRequest = Some r ->
  resolve (fuel + extra)%nat iLOD hb dontRequest = Some r.
Proof.
  unfold getBrick.
  destruct (negb dontRequest && _); [|trivial].
  destruct (lookForLowerRes _ _ _ fuel _ _) as [st|] eqn:E; [|discriminate].
  rewrite (lookForLowerRes_more _ _ _ _ extra _ _ _ E). trivial.
Qed.

(** C9. With [dontRequest] set and the brick at the requested level
    missing, [getBrick] returns without a single round of the
    [do .. while] loop, leaves the hash buffer as it is, and reports the
    brick as empty and as a substitute, with no pool transform; the level
    returned is the requested one unless the empty-space loop adopted a
    coarser [BI_CHILD_EMPTY] level. *)
Theorem C9_dontRequest_missing_is_skipped (fuel : nat) (iLOD : Z) (hb : list Z) :
  stateAt iLOD = BI_MISSING ->
  exists info : BrickInformation F,
    resolve fuel iLOD hb true = Some (info, hb) /\
    empty info = true /\
    substitute info = true /\
    poolBrickInfo info = None /\
    brickIndex info
      = getBrickIndex (computeBrickCoords (clampEntry entry) levelArray iLOD)
          levelArray /\
    (LOD info = iLOD \/ stateAt (LOD info) = BI_CHILD_EMPTY).
Proof.
  intros Hmiss. unfold getBrick. cbn [negb andb].
  unfold brickInfoAt in Hmiss. rewrite Hmiss.
  change (BI_MISSING <=? BI_EMPTY) with true. cbn iota.
  unfold skipEmpty.
  destruct (skipEmptyFrom_spec cfg (clampEntry entry) brickMeta levelArray
              (Z.to_nat (LEVEL_COUNT cfg - wrap32 (iLOD + 1))) (wrap32 (iLOD + 1))
              (computeBrickCoords (clampEntry entry) levelArray iLOD)
              BI_MISSING iLOD (Nat.le_refl _))
    as [[-> _] | (lod' & -> & Hb & Hall & _)].
  - eexists. split; [reflexivity|]. cbn. repeat split. left. reflexivity.
  - eexists. split; [reflexivity|]. cbn. repeat split.
    right. apply Hall. lia.
Qed.

(** C1. When the brick at the requested level (a level of the hierarchy)
    is missing, reports are allowed and the brick at the coarsest level
    [LEVEL_COUNT - 1] is not missing, [getBrick] returns: the
    [do .. while] loop needs no more than [LEVEL_COUNT - iLOD - 1] rounds
    (and any larger bound gives the same result); the level returned is
    coarser than the requested one and at most the coarsest, and the
    substitute flag is set. *)
Theorem C1_missing_resolves_below_coarsest (iLOD : Z) (hb : list Z) :
  0 <= iLOD < LEVEL_COUNT cfg ->
  LEVEL_COUNT cfg < 2 ^ 32 ->
  stateAt iLOD = BI_MISSING ->
  stateAt (LEVEL_COUNT cfg - 1) <> BI_MISSING ->
  exists (info : BrickInformation F) (hb' : list Z),
    (forall extra : nat,
        resolve (Z.to_nat (LEVEL_COUNT cfg - iLOD - 1) + extra)%nat iLOD hb false
          = Some (info, hb')) /\
    iLOD < LOD info <= LEVEL_COUNT cfg - 1 /\
    substitute info = true.
Proof.
  intros Hlod HLC Hmiss Htop.
  assert (Hlt : iLOD < LEVEL_COUNT cfg - 1).
  { destruct (Z.eq_dec iLOD (LEVEL_COUNT cfg - 1)) as [E|E]; [|lia].
    rewrite E in Hmiss. contradiction. }
  destruct (lookForLowerRes_reaches (clampEntry entry) brickMeta levelArray
              (LEVEL_COUNT cfg - 1) (Z.to_nat (LEVEL_COUNT cfg - iLOD - 1)) iLOD
              (getBrickIndex (computeBrickCoords (clampEntry entry) levelArray iLOD)
                 levelArray))
    as (st & Hst & Hb); [lia | lia | exact Htop | lia |].
  assert (Hret : exists (info : BrickInformation F) (hb' : list Z),
             resolve (Z.to_nat (LEVEL_COUNT cfg - iLOD - 1)) iLOD hb false
               = Some (info, hb') /\
             iLOD < LOD info <= LEVEL_COUNT cfg - 1 /\
             substitute info = true).
  { unfold getBrick. cbn [negb andb].
    unfold brickInfoAt in Hmiss. rewrite Hmiss.
    change (BI_MISSING =? BI_MISSING) with true. cbn iota.
    rewrite Hst.
    destruct (ms_brickInfo st <=? BI_EMPTY).
    - unfold skipEmpty.
      destruct (skipEmptyFrom_spec cfg (clampEntry entry) brickMeta levelArray
                  (Z.to_nat (LEVEL_COUNT cfg - wrap32 (ms_LOD st + 1)))
                  (wrap32 (ms_LOD st + 1)) (ms_brickCoords st) (ms_brickInfo st)
                  (ms_LOD st) (Nat.le_refl _))
        as [[-> _] | (lod' & -> & Hb' & _)].
      + do 2 eexists. split; [reflexivity|]. cbn. split; [lia | reflexivity].
      + do 2 eexists. split; [reflexivity|]. cbn. split; [|reflexivity].
        rewrite wrap32_small in Hb' by (unfold is_uint; lia). lia.
    - do 2 eexists. split; [reflexivity|]. cbn. split; [lia | reflexivity]. }
  destruct Hret as (info & hb' & Hret & Hrest).
  exists info, hb'. split; [|exact Hrest].
  intros extra. apply getBrick_more. exact Hret.
Qed.

(** C3, as amended.  The substitute flag of the result is set exactly when
    the residency word of the brick at the requested level is
    [BI_MISSING]; an empty or child-empty brick is not a substitute.  The
    only calls that can run out of rounds are those that report a missing
    brick. *)
Theorem C3_substitute_iff_requested_missing (fuel : nat) (iLOD : Z)
    (hb : list Z) (dontRequest : bool) :
  match resolve fuel iLOD hb dontRequest with
  | Some (info, _) => substitute info = (stateAt iLOD =? BI_MISSING)
  | None => dontRequest = false /\ stateAt iLOD = BI_MISSING
  end.
Proof.
  unfold getBrick, brickInfoAt.
  set (bi := brickMeta _).
  destruct dontRequest; cbn [negb andb].
  - destruct (bi <=? BI_EMPTY); [destruct (skipEmpty _ _ _ _ _ _ _) as [[? ?] ?]|];
      reflexivity.
  - destruct (Z.eqb_spec bi BI_MISSING) as [E|E].
    + destruct (lookForLowerRes _ _ _ _ _ _) as [st|]; [|split; [reflexivity | exact E]].
      destruct (ms_brickInfo st <=? BI_EMPTY);
        [destruct (skipEmpty _ _ _ _ _ _ _) as [[? ?] ?]|]; reflexivity.
    + destruct (bi <=? BI_EMPTY); [destruct (skipEmpty _ _ _ _ _ _ _) as [[? ?] ?]|];
        reflexivity.
Qed.

(** The empty-space loop, seen from the level [start] it begins above. *)
Lemma skipEmpty_spec (start : Z) (bc : uint4) (bi : Z) :
  is_uint start -> LEVEL_COUNT cfg <= 2 ^ 32 ->
  exists (bc' : uint4) (bi' lod' : Z),
    skipEmpty cfg (clampEntry entry) brickMeta levelArray bc bi start
      = (bc', bi', lod') /\
    (lod' = start \/ stateAt lod' = BI_CHILD_EMPTY) /\
    (forall l : Z, start < l <= lod' -> stateAt l = BI_CHILD_EMPTY) /\
    (lod' + 1 < LEVEL_COUNT cfg -> stateAt (lod' + 1) <> BI_CHILD_EMPTY).
Proof.
  intros Hstart HLC. unfold skipEmpty.
  destruct (skipEmptyFrom_spec cfg (clampEntry entry) brickMeta levelArray
              (Z.to_nat (LEVEL_COUNT cfg - wrap32 (start + 1)))
              (wrap32 (start + 1)) bc bi start (Nat.le_refl _))
    as [[-> Hnext] | (lod' & -> & Hb & Hall & Hnext)].
  - do 3 eexists. split; [reflexivity|]. split; [left; reflexivity|].
    split; [intros l Hl; lia|].
    intros Hlt. rewrite wrap32_small in Hnext by (unfold is_uint in *; lia).
    apply Hnext. exact Hlt.
  - do 3 eexists. split; [reflexivity|].
    split; [right; apply Hall; lia|]. split; [|exact Hnext].
    intros l Hl. apply Hall.
    destruct (Z.eq_dec (start + 1) (2 ^ 32)) as [E|E].
    + unfold is_uint in Hstart. lia.
    + rewrite wrap32_small by (unfold is_uint in *; lia). lia.
Qed.

(** C4. When the result is flagged empty, the level [start] at which the
    emptiness test was made is fixed by the call: it is the requested level
    when no miss is handled (reports are off, or the brick there is not
    missing); otherwise it is the level the miss loop stopped at, which is
    the first level above the requested one (some [n > 0] levels above it,
    counted modulo 2^32 as the counter is) whose brick is not missing, all
    levels before it being missing.  The brick at [start] is empty or
    child-empty.  The level returned is [start] itself or a level whose
    state is [BI_CHILD_EMPTY]; every level above [start] up to the returned
    one has state [BI_CHILD_EMPTY]; and the level next above the returned
    one, when it is below [LEVEL_COUNT], has not. *)
Theorem C4_empty_ascension_only_child_empty (fuel : nat) (iLOD : Z)
    (hb : list Z) (dontRequest : bool)
    (info : BrickInformation F) (hb' : list Z) :
  is_uint iLOD -> LEVEL_COUNT cfg <= 2 ^ 32 ->
  resolve fuel iLOD hb dontRequest = Some (info, hb') ->
  empty info = true ->
  exists start : Z,
    is_uint start /\
    stateAt start <= BI_EMPTY /\
    ((start = iLOD /\ (dontRequest = true \/ stateAt iLOD <> BI_MISSING)) \/
     (dontRequest = false /\
      exists n : nat,
        (0 < n)%nat /\
        start = wrap32 (iLOD + Z.of_nat n) /\
        (forall j : nat, (j < n)%nat ->
           stateAt (wrap32 (iLOD + Z.of_nat j)) = BI_MISSING) /\
        stateAt start <> BI_MISSING)) /\
    (LOD info = start \/ stateAt (LOD info) = BI_CHILD_EMPTY) /\
    (forall l : Z, start < l <= LOD info -> stateAt l = BI_CHILD_EMPTY) /\
    (LOD info + 1 < LEVEL_COUNT cfg ->
     stateAt (LOD info + 1) <> BI_CHILD_EMPTY).
Proof.
  intros HiLOD HLC. unfold getBrick.
  fold (brickInfoAt (clampEntry entry) brickMeta levelArray iLOD).
  destruct (negb dontRequest && (stateAt iLOD =? BI_MISSING)) eqn:Hcond.
  - apply andb_prop in Hcond. destruct Hcond as [Hdr Hmiss].
    apply negb_true_iff in Hdr. apply Z.eqb_eq in Hmiss.
    destruct (lookForLowerRes _ _ _ _ _ _) as [st|] eqn:Hst; [|discriminate].
    destruct (lookForLowerRes_sound _ _ _ _ _ _ _ Hst)
      as (Hu & _ & _ & Hinfo & Hnm).
    destruct (lookForLowerRes_trace _ _ _ _ _ _ _ Hst)
      as (n & _ & HL & Hpass & _).
    destruct (Z.leb_spec (ms_brickInfo st) BI_EMPTY) as [Hle|Hgt].
    + destruct (skipEmpty_spec (ms_LOD st) (ms_brickCoords st) (ms_brickInfo st)
                  Hu HLC) as (bc' & bi' & lod' & -> & Hor & Hall & Hnext).
      intros [= <- _] _. cbn.
      exists (ms_LOD st). rewrite <- Hinfo.
      split; [exact Hu|]. split; [exact Hle|].
      split; [|split; [exact Hor | split; assumption]].
      right. split; [exact Hdr|]. exists (S n).
      split; [lia|]. split; [exact HL|]. split; [|exact Hnm].
      intros j Hj. destruct j as [|j].
      * rewrite Z.add_0_r, wrap32_small by exact HiLOD. exact Hmiss.
      * apply Hpass. lia.
    + intros [= <- _]. cbn. discriminate.
  - destruct (Z.leb_spec (stateAt iLOD) BI_EMPTY) as [Hle|Hgt].
    + destruct (skipEmpty_spec iLOD
                  (computeBrickCoords (clampEntry entry) levelArray iLOD)
                  (stateAt iLOD) HiLOD HLC)
        as (bc' & bi' & lod' & -> & Hor & Hall & Hnext).
      intros [= <- _] _. cbn.
      exists iLOD. split; [exact HiLOD|]. split; [exact Hle|].
      split; [|split; [exact Hor | split; assumption]].
      left. split; [reflexivity|].
      apply andb_false_iff in Hcond. destruct Hcond as [Hdr|Hm].
      * left. apply negb_false_iff in Hdr. exact Hdr.
      * right. apply Z.eqb_neq in Hm. exact Hm.
    + intros [= <- _]. cbn. discriminate.
Qed.
End GetBrickFacts.

(** ** The resolver on sample data *)

Section Samples.
Import ExactFloat.

Local Abbreviation run :=
  (fun fuel iLOD words dontRequest =>
     getBrick dummy demoPool fuel allReliable demoEntry iLOD demoDirection demoCube
       (metaOf words) oneBrickLevels (clearedTable dummy) dontRequest).

Local Abbreviation sampleState :=
  (fun words => brickInfoAt (clampEntry demoEntry) (metaOf words) oneBrickLevels).

(** Levels 0 to 2 missing, level 3 and all above resident. *)
Lemma C1_witness :
  exists (info : BrickInformation Q) (hb' : list Z),
    (forall extra : nat,
        run (Z.to_nat (LEVEL_COUNT dummy - 0 - 1) + extra)%nat 0 [0; 0; 0] false
          = Some (info, hb')) /\
    0 < LOD info <= LEVEL_COUNT dummy - 1 /\
    substitute info = true.
Proof.
  apply (C1_missing_resolves_below_coarsest dummy demoPool demoEntry
           demoDirection demoCube (metaOf [0; 0; 0]) oneBrickLevels allReliable 0
           (clearedTable dummy)).
  - vm_compute. split; [discriminate | reflexivity].
  - reflexivity.
  - reflexivity.
  - vm_compute. discriminate.
Defined.

(** C3 as the claim states it fails: a brick whose residency word is
    [BI_EMPTY] has no pool slot, yet the result is not flagged as a
    substitute. *)
Lemma C3_counterexample :
  sampleState [2] 0 = BI_EMPTY /\
  sampleState [2] 0 < BI_FLAG_COUNT /\
  option_map (fun r => substitute (fst r)) (run 0%nat 0 [2] false) = Some false.
Proof. vm_compute. repeat split. Qed.

(** Levels 0 and 1 missing, level 2 empty, levels 3 and 4 child-empty,
    level 5 resident: the miss loop stops at level 2, where the emptiness
    test is made, and the level returned is 4. *)
Lemma C4_witness :
  exists (info : BrickInformation Q) (hb' : list Z),
    run 9%nat 0 [0; 0; 2; 1; 1; 3] false = Some (info, hb') /\
    LOD info = 4 /\
    exists start : Z,
      is_uint start /\
      sampleState [0; 0; 2; 1; 1; 3] start <= BI_EMPTY /\
      ((start = 0 /\
        (false = true \/ sampleState [0; 0; 2; 1; 1; 3] 0 <> BI_MISSING)) \/
       (false = false /\
        exists n : nat,
          (0 < n)%nat /\
          start = wrap32 (0 + Z.of_nat n) /\
          (forall j : nat, (j < n)%nat ->
             sampleState [0; 0; 2; 1; 1; 3] (wrap32 (0 + Z.of_nat j)) = BI_MISSING) /\
          sampleState [0; 0; 2; 1; 1; 3] start <> BI_MISSING)) /\
      (LOD info = start \/
       sampleState [0; 0; 2; 1; 1; 3] (LOD info) = BI_CHILD_EMPTY) /\
      (forall l : Z, start < l <= LOD info ->
         sampleState [0; 0; 2; 1; 1; 3] l = BI_CHILD_EMPTY) /\
      (LOD info + 1 < LEVEL_COUNT dummy ->
       sampleState [0; 0; 2; 1; 1; 3] (LOD info + 1) <> BI_CHILD_EMPTY).
Proof.
  do 2 eexists. split; [vm_compute; reflexivity|]. split; [reflexivity|].
  eapply (C4_empty_ascension_only_child_empty dummy demoPool demoEntry
            demoDirection demoCube (metaOf [0; 0; 2; 1; 1; 3]) oneBrickLevels
            allReliable 9%nat 0 (clearedTable dummy) false).
  - vm_compute. split; [discriminate | reflexivity].
  - vm_compute. discriminate.
  - vm_compute. reflexivity.
  - reflexivity.
Defined.

Lemma C9_witness :
  exists info : BrickInformation Q,
    run 0%nat 0 [0; 1; 3] true = Some (info, clearedTable dummy) /\
    empty info = true /\
    substitute info = true /\
    poolBrickInfo info = None /\
    brickIndex info
      = getBrickIndex (computeBrickCoords (clampEntry demoEntry) oneBrickLevels 0)
          oneBrickLevels /\
    (LOD info = 0 \/ sampleState [0; 1; 3] (LOD info) = BI_CHILD_EMPTY).
Proof.
  apply (C9_dontRequest_missing_is_skipped dummy demoPool demoEntry
           demoDirection demoCube (metaOf [0; 1; 3]) oneBrickLevels allReliable
           0%nat 0 (clearedTable dummy)).
  reflexivity.
Defined.
End Samples.

(** ** Brick addressing: cell and bounds *)

Section AddressingFacts.
Import ExactFloat.

Lemma exact_cell_range (x f : Q) :
  (0 <= x <= 1)%Q -> (0 < f)%Q -> (f < inject_Z (2 ^ 32 - 1))%Q ->
  0 <= Qfloor (x * f) <= 2 ^ 32 - 2.
Proof.
  intros [Hx0 Hx1] Hf0 Hf1.
  assert (Hq0 : (0 <= x * f)%Q)
    by (apply Qmult_le_0_compat; [exact Hx0 | apply Qlt_le_weak; exact Hf0]).
  assert (Hq1 : (x * f <= f)%Q).
  { apply Qle_trans with (1 * f)%Q.
    - apply Qmult_le_compat_r; [exact Hx1 | apply Qlt_le_weak; exact Hf0].
    - rewrite Qmult_1_l. apply Qle_refl. }
  split.
  - change 0 with (Qfloor 0). apply Qfloor_resp_le. exact Hq0.
  - assert (Hlt : (inject_Z (Qfloor (x * f)) < inject_Z (2 ^ 32 - 1))%Q).
    { apply Qle_lt_trans with (x * f)%Q; [apply Qfloor_le|].
      apply Qle_lt_trans with f; assumption. }
    rewrite <- Zlt_Qlt in Hlt. lia.
Qed.

Lemma exact_cell_contains (x f : Q) :
  (0 <= x <= 1)%Q -> (0 < f)%Q -> (f < inject_Z (2 ^ 32 - 1))%Q ->
  fleb (fdiv (float_of_uint (uint_of_float (fmul x f))) f) x = true /\
  fleb x (fdiv (float_of_uint (wrap32 (uint_of_float (fmul x f) + 1))) f) = true.
Proof.
  intros Hx Hf0 Hf1. cbn [fleb fdiv fmul float_of_uint uint_of_float exact].
  pose proof (exact_cell_range x f Hx Hf0 Hf1) as Hc.
  unfold saturate32.
  rewrite Z.min_l by lia. rewrite Z.max_r by lia.
  unfold wrap32. rewrite Z.mod_small by lia.
  split; apply Qle_bool_iff.
  - apply Qle_shift_div_r; [exact Hf0 | apply Qfloor_le].
  - apply Qle_shift_div_l; [exact Hf0|]. apply Qlt_le_weak, Qlt_floor.
Qed.

Lemma exact_bounds_contain_position (p : vec3 Q)
    (levelArray : Z -> LevelData Q) (L : Z) :
  inUnitCube p ->
  layoutInRange (fractionalBrickLayout (levelArray L)) ->
  between3
    (corner0 (getBrickCorners (computeBrickCoords p levelArray L) levelArray))
    p
    (corner1 (getBrickCorners (computeBrickCoords p levelArray L) levelArray))
  = true.
Proof.
  intros (Hx & Hy & Hz) ((Hfx0 & Hfx1) & (Hfy0 & Hfy1) & (Hfz0 & Hfz1)).
  unfold between3, getBrickCorners, computeBrickCoords. cbn [w xyz].
  unfold zip3, map3. cbn [vx vy vz corner0 corner1].
  destruct (exact_cell_contains _ _ Hx Hfx0 Hfx1) as [-> ->].
  destruct (exact_cell_contains _ _ Hy Hfy0 Hfy1) as [-> ->].
  destruct (exact_cell_contains _ _ Hz Hfz0 Hfz1) as [-> ->].
  reflexivity.
Qed.
End AddressingFacts.

(** ** Brick addressing in binary32

    Values are followed through [SFmul], [binary_normalize] and [SFdiv] as
    the rationals [val m e] they stand for. *)

Section Binary32Facts.
Import Binary32.

Lemma pow2_pos (e : Z) : (0 < 2 ^ e)%Q.
Proof. apply Qpower_0_lt. reflexivity. Qed.

Lemma pow2_add (a b : Z) : (2 ^ (a + b) == 2 ^ a * 2 ^ b)%Q.
Proof. apply Qpower_plus. discriminate. Qed.

Lemma pow2_inject (k : Z) : 0 <= k -> (2 ^ k == inject_Z (2 ^ k))%Q.
Proof. intros Hk. symmetry. exact (Zpower_Qpower 2 k Hk). Qed.

Lemma val_le (m1 m2 e : Z) : (val m1 e <= val m2 e)%Q <-> m1 <= m2.
Proof.
  unfold val. rewrite Qmult_le_r by apply pow2_pos. rewrite <- Zle_Qle. reflexivity.
Qed.

Lemma val_lt (m1 m2 e : Z) : (val m1 e < val m2 e)%Q <-> m1 < m2.
Proof.
  unfold val. rewrite Qmult_lt_r by apply pow2_pos. rewrite <- Zlt_Qlt. reflexivity.
Qed.

Lemma val_shift (m e k : Z) : 0 <= k -> (val m e == val (m * 2 ^ k) (e - k))%Q.
Proof.
  intros Hk. unfold val.
  replace e with (k + (e - k)) at 1 by lia.
  rewrite pow2_add, inject_Z_mult, (pow2_inject k Hk). ring.
Qed.

Lemma val_mul (m1 e1 m2 e2 : Z) :
  (val m1 e1 * val m2 e2 == val (m1 * m2) (e1 + e2))%Q.
Proof. unfold val. rewrite pow2_add, inject_Z_mult. ring. Qed.

Lemma val_0 (k : Z) : (val k 0 == inject_Z k)%Q.
Proof. unfold val. change (2 ^ 0)%Q with 1%Q. ring. Qed.

(** The number of binary digits of a significand. *)
Lemma digits2_bounds (p : positive) :
  2 ^ (Z.pos (digits2_pos p) - 1) <= Z.pos p < 2 ^ Z.pos (digits2_pos p).
Proof.
  induction p as [p IH|p IH|]; cbn [digits2_pos].
  - rewrite Pos2Z.inj_succ. change (Z.pos p~1) with (2 * Z.pos p + 1).
    replace (Z.succ (Z.pos (digits2_pos p)) - 1)
      with (Z.succ (Z.pos (digits2_pos p) - 1)) by lia.
    rewrite !Z.pow_succ_r by lia.
    set (A := 2 ^ (Z.pos (digits2_pos p) - 1)) in *.
    set (B := 2 ^ Z.pos (digits2_pos p)) in *. lia.
  - rewrite Pos2Z.inj_succ. change (Z.pos p~0) with (2 * Z.pos p).
    replace (Z.succ (Z.pos (digits2_pos p)) - 1)
      with (Z.succ (Z.pos (digits2_pos p) - 1)) by lia.
    rewrite !Z.pow_succ_r by lia.
    set (A := 2 ^ (Z.pos (digits2_pos p) - 1)) in *.
    set (B := 2 ^ Z.pos (digits2_pos p)) in *. lia.
  - cbn. lia.
Qed.

Lemma Zdigits2_bounds (m : Z) :
  0 < m -> 0 < Zdigits2 m /\ 2 ^ (Zdigits2 m - 1) <= m < 2 ^ Zdigits2 m.
Proof.
  destruct m as [|p|p]; try lia. intros _. cbn [Zdigits2].
  split; [lia | apply digits2_bounds].
Qed.

Lemma pow2_lt_inv (a b : Z) : 0 <= b -> 2 ^ a < 2 ^ b -> a < b.
Proof. intros Hb H. apply (Z.pow_lt_mono_r_iff 2); [lia | exact Hb | exact H]. Qed.

Lemma pow2_le (a b : Z) : 0 <= a <= b -> 2 ^ a <= 2 ^ b.
Proof. intros H. apply Z.pow_le_mono_r; lia. Qed.

Lemma pow2_gt0 (a : Z) : 0 <= a -> 0 < 2 ^ a.
Proof. intros H. apply Z.pow_pos_nonneg; lia. Qed.

(** [m < 2^n] bounds the number of digits. *)
Lemma Zdigits2_le (m n : Z) : 0 <= m < 2 ^ n -> 0 <= n -> Zdigits2 m <= n.
Proof.
  intros [H0 H1] Hn. destruct (Z.eq_dec m 0) as [->|Hne]; [exact Hn|].
  destruct (Zdigits2_bounds m ltac:(lia)) as [Hd [Hlo _]].
  assert (Zdigits2 m - 1 < n) by (apply pow2_lt_inv; lia). lia.
Qed.

(** [2^n <= m] gives more than [n] digits. *)
Lemma Zdigits2_gt (m n : Z) : 0 <= n -> 2 ^ n <= m -> n < Zdigits2 m.
Proof.
  intros Hn H. pose proof (pow2_gt0 n Hn).
  destruct (Zdigits2_bounds m ltac:(lia)) as [Hd [_ Hhi]].
  apply pow2_lt_inv; lia.
Qed.

(** Right shifts of a significand. *)
Lemma shr_1_m (mrs : shr_record) :
  0 <= shr_m mrs -> shr_m (shr_1 mrs) = shr_m mrs / 2.
Proof.
  destruct mrs as [m r s]. cbn [shr_m]. intros Hm.
  destruct m as [|[p|p|]|p]; cbn [shr_1 shr_m]; try lia.
  - reflexivity.
  - change (Z.pos p~1) with (2 * Z.pos p + 1).
    apply Z.div_unique with 1; lia.
  - change (Z.pos p~0) with (2 * Z.pos p).
    apply Z.div_unique with 0; lia.
  - reflexivity.
Qed.

Lemma iter_shr_1_m (p : positive) (mrs : shr_record) :
  0 <= shr_m mrs ->
  shr_m (SpecFloat.iter_pos shr_1 p mrs) = shr_m mrs / 2 ^ Z.pos p.
Proof.
  revert mrs. induction p as [p IH|p IH|]; intros mrs Hm; cbn [SpecFloat.iter_pos].
  - assert (H1 : 0 <= shr_m (shr_1 mrs))
      by (rewrite shr_1_m by exact Hm; apply Z.div_pos; lia).
    assert (H2 : 0 <= shr_m (SpecFloat.iter_pos shr_1 p (shr_1 mrs)))
      by (rewrite IH by exact H1; apply Z.div_pos; [lia | apply pow2_gt0; lia]).
    rewrite IH by exact H2. rewrite IH by exact H1. rewrite shr_1_m by exact Hm.
    pose proof (pow2_gt0 (Z.pos p) ltac:(lia)).
    rewrite !Z.div_div by lia. f_equal.
    change (Z.pos p~1) with (2 * Z.pos p + 1).
    replace (2 * Z.pos p + 1) with (1 + Z.pos p + Z.pos p) by lia.
    rewrite !Z.pow_add_r by lia. lia.
  - assert (H2 : 0 <= shr_m (SpecFloat.iter_pos shr_1 p mrs))
      by (rewrite IH by exact Hm; apply Z.div_pos; [lia | apply pow2_gt0; lia]).
    rewrite IH by exact H2. rewrite IH by exact Hm.
    pose proof (pow2_gt0 (Z.pos p) ltac:(lia)).
    rewrite !Z.div_div by lia. f_equal.
    change (Z.pos p~0) with (2 * Z.pos p).
    replace (2 * Z.pos p) with (Z.pos p + Z.pos p) by lia.
    rewrite !Z.pow_add_r by lia. lia.
  - rewrite shr_1_m by exact Hm. reflexivity.
Qed.

Lemma shr_record_of_loc_m (m : Z) (l : location) :
  shr_m (shr_record_of_loc m l) = m.
Proof. destruct l as [|[]]; reflexivity. Qed.

(** A shift by [n >= 0] places divides the significand by [2^n]. *)
Lemma shr_spec (mrs : shr_record) (e n : Z) :
  0 <= shr_m mrs -> 0 <= n ->
  shr_m (fst (shr mrs e n)) = shr_m mrs / 2 ^ n /\ snd (shr mrs e n) = e + n.
Proof.
  intros Hm Hn. destruct n as [|p|p]; cbn [shr fst snd]; try lia.
  - rewrite Z.div_1_r. split; [reflexivity | lia].
  - split; [apply iter_shr_1_m; exact Hm | reflexivity].
Qed.

Lemma shr_none (mrs : shr_record) (e n : Z) : n <= 0 -> shr mrs e n = (mrs, e).
Proof. intros Hn. destruct n as [|p|p]; try lia; reflexivity. Qed.

Lemma round_nearest_even_bounds (m : Z) (l : location) :
  m <= round_nearest_even m l <= m + 1.
Proof.
  destruct l as [|[]]; cbn [round_nearest_even]; try destruct (Z.even m); lia.
Qed.

Lemma fexp_eq (e : Z) : fexp 24 128 e = Z.max (e - 24) (-149).
Proof. reflexivity. Qed.

(** Rounding a non-negative value [mx * 2^ex .. (mx+1) * 2^ex] whose
    exponent is not above the exponent of the format: the result has a
    24-bit significand and is not below the value truncated to the format. *)
Lemma binary_round_aux_spec (mx ex : Z) (lx : location) :
  0 <= mx -> ex <= fexp 24 128 (Zdigits2 mx + ex) ->
  exists m3 e3 : Z,
    binary_round_aux 24 128 false mx ex lx = rounded m3 e3 /\
    0 <= m3 < 2 ^ 24 /\ -149 <= e3 /\
    (val (mx / 2 ^ (fexp 24 128 (Zdigits2 mx + ex) - ex))
         (fexp 24 128 (Zdigits2 mx + ex)) <= val m3 e3)%Q /\
    (lx = loc_Exact -> fexp 24 128 (Zdigits2 mx + ex) = ex ->
     m3 = mx /\ e3 = ex).
Proof.
  intros Hmx Hal.
  set (E := fexp 24 128 (Zdigits2 mx + ex)) in *.
  assert (HE : -149 <= E) by (unfold E; rewrite fexp_eq; lia).
  set (k := E - ex). assert (Hk : 0 <= k) by (unfold k; lia).
  pose proof (pow2_gt0 k Hk) as H2k.
  set (m1 := mx / 2 ^ k).
  assert (Hm1 : 0 <= m1 < 2 ^ 24).
  { split; [apply Z.div_pos; lia|].
    destruct (Z.eq_dec mx 0) as [->|Hne]; [unfold m1; rewrite Z.div_0_l; lia|].
    destruct (Zdigits2_bounds mx ltac:(lia)) as [Hd [_ Hhi]].
    apply Z.div_lt_upper_bound; [lia|].
    rewrite <- Z.pow_add_r by lia.
    apply Z.lt_le_trans with (2 ^ Zdigits2 mx); [exact Hhi|].
    apply pow2_le. unfold k, E. rewrite fexp_eq. lia. }
  unfold binary_round_aux, shr_fexp. fold E. fold k.
  destruct (shr_spec (shr_record_of_loc mx lx) ex k) as [Hs1 Hs2];
    [rewrite shr_record_of_loc_m; exact Hmx | exact Hk |].
  rewrite shr_record_of_loc_m in Hs1. fold m1 in Hs1.
  assert (Hexact : lx = loc_Exact -> E = ex ->
            shr (shr_record_of_loc mx lx) ex k
            = (Build_shr_record mx false false, ex)).
  { intros -> HEex. rewrite shr_none by (unfold k; lia). reflexivity. }
  destruct (shr (shr_record_of_loc mx lx) ex k) as [mrs1 e1].
  cbn [fst snd] in Hs1, Hs2.
  replace e1 with E by (unfold k in Hs2; lia).
  set (m2 := round_nearest_even (shr_m mrs1) (loc_of_shr_record mrs1)).
  assert (Hm2 : m1 <= m2 <= m1 + 1)
    by (unfold m2; rewrite Hs1; apply round_nearest_even_bounds).
  assert (Hm2x : lx = loc_Exact -> E = ex -> m2 = mx).
  { intros Hl HEex. specialize (Hexact Hl HEex). injection Hexact as -> _.
    reflexivity. }
  destruct (Z.eq_dec m2 (2 ^ 24)) as [Hfull|Hnot].
  - rewrite Hfull.
    assert (Hn2 : fexp 24 128 (Zdigits2 (2 ^ 24) + E) - E = 1)
      by (change (Zdigits2 (2 ^ 24)) with 25; rewrite fexp_eq; lia).
    rewrite Hn2. cbn [shr_record_of_loc shr SpecFloat.iter_pos].
    change (shr_1 {| shr_m := 2 ^ 24; shr_r := false; shr_s := false |})
      with {| shr_m := 2 ^ 23; shr_r := false; shr_s := false |}.
    cbn [shr_m].
    exists (2 ^ 23), (E + 1). split; [reflexivity|].
    split; [lia|]. split; [lia|]. split.
    + apply Qle_trans with (val (2 ^ 24) E); [apply val_le; lia|].
      rewrite (val_shift (2 ^ 23) (E + 1) 1) by lia.
      replace (E + 1 - 1) with E by lia. apply Qle_refl.
    + intros Hl HEex. rewrite (Hm2x Hl HEex) in Hfull.
      unfold m1 in Hm1. replace k with 0 in Hm1 by (unfold k; lia).
      rewrite Z.div_1_r in Hm1. lia.
  - assert (Hd2 : Zdigits2 m2 <= 24) by (apply Zdigits2_le; lia).
    rewrite shr_none by (rewrite fexp_eq; lia).
    rewrite shr_record_of_loc_m.
    exists m2, E. split.
    { unfold rounded. destruct m2; reflexivity. }
    split; [lia|]. split; [exact HE|]. split; [apply val_le; lia|].
    intros Hl HEex. split; [apply Hm2x; assumption | exact HEex].
Qed.

(** A value of the format (24-bit significand, exponent from -149) that
    lies below [(mx+1) * 2^ex] is not above the truncation of
    [mx * 2^ex] to the format. *)
Lemma round_down_ge (my ey mx ex : Z) :
  0 <= my < 2 ^ 24 -> -149 <= ey ->
  0 <= mx -> ex <= fexp 24 128 (Zdigits2 mx + ex) ->
  (val my ey < val (mx + 1) ex)%Q ->
  (val my ey <= val (mx / 2 ^ (fexp 24 128 (Zdigits2 mx + ex) - ex))
                   (fexp 24 128 (Zdigits2 mx + ex)))%Q.
Proof.
  intros Hmy Hey Hmx Hal Hlt.
  set (E := fexp 24 128 (Zdigits2 mx + ex)) in *.
  set (k := E - ex). assert (Hk : 0 <= k) by (unfold k; lia).
  pose proof (pow2_gt0 k Hk) as H2k.
  set (m1 := mx / 2 ^ k).
  assert (Hdiv : mx + 1 <= (m1 + 1) * 2 ^ k).
  { pose proof (Z.div_mod mx (2 ^ k) ltac:(lia)) as Hdm.
    pose proof (Z.mod_pos_bound mx (2 ^ k) H2k) as Hmod.
    fold m1 in Hdm. lia. }
  assert (Hlt' : (val my ey < val (m1 + 1) E)%Q).
  { apply Qlt_le_trans with (val (mx + 1) ex); [exact Hlt|].
    rewrite (val_shift (m1 + 1) E k Hk).
    replace (E - k) with ex by (unfold k; lia).
    apply val_le. exact Hdiv. }
  destruct (Z_le_gt_dec E ey) as [Hge|Hgt].
  - rewrite (val_shift my ey (ey - E)) in Hlt' |- * by lia.
    replace (ey - (ey - E)) with E in Hlt' |- * by lia.
    apply val_lt in Hlt'. apply val_le. lia.
  - assert (HE : E = Zdigits2 mx + ex - 24)
      by (unfold E in *; rewrite fexp_eq in *; lia).
    assert (Hpos : 0 < mx).
    { destruct (Z.eq_dec mx 0) as [E0|E0]; [|lia].
      rewrite E0 in HE. cbn [Zdigits2] in HE. lia. }
    destruct (Zdigits2_bounds mx Hpos) as [Hd [Hlo _]].
    assert (Hm1 : 2 ^ 23 <= m1).
    { apply Z.div_le_lower_bound; [lia|].
      rewrite <- Z.pow_add_r by lia.
      replace (k + 23) with (Zdigits2 mx - 1) by (unfold k; lia). exact Hlo. }
    rewrite (val_shift m1 E (E - ey)) by lia.
    replace (E - (E - ey)) with ey by lia.
    apply val_le.
    assert (H2 : 2 ^ 1 <= 2 ^ (E - ey)) by (apply pow2_le; lia).
    change (2 ^ 1) with 2 in H2.
    apply Z.le_trans with (2 ^ 23 * 2); [lia|].
    apply Z.mul_le_mono_nonneg; lia.
Qed.

(** Order of two values of the format, read off their representations. *)
Lemma canonical_le (my : positive) (ey : Z) (m3 : positive) (e3 : Z) :
  bounded 24 128 my ey = true ->
  Z.pos m3 < 2 ^ 24 -> -149 <= e3 ->
  (val (Z.pos my) ey <= val (Z.pos m3) e3)%Q ->
  SFleb (S754_finite false my ey) (S754_finite false m3 e3) = true.
Proof.
  intros Hb Hm3 He3 Hle.
  unfold bounded, canonical_mantissa in Hb.
  apply andb_prop in Hb. destruct Hb as [Hcan _].
  apply Z.eqb_eq in Hcan. rewrite fexp_eq in Hcan.
  unfold SFleb, SFcompare.
  destruct (Z.compare_spec ey e3) as [Heq|Hlt|Hgt]; [|reflexivity|].
  - subst e3. apply val_le in Hle.
    rewrite Pos.compare_cont_spec. cbn [Pos.switch_Eq].
    destruct (Pos.compare_spec my m3); [reflexivity | reflexivity | lia].
  - exfalso.
    pose proof (digits2_bounds my) as [Hlo _].
    replace (Z.pos (digits2_pos my) - 1) with 23 in Hlo by lia.
    rewrite (val_shift (Z.pos my) ey (ey - e3)) in Hle by lia.
    replace (ey - (ey - e3)) with e3 in Hle by lia.
    apply val_le in Hle.
    assert (H2 : 2 ^ 1 <= 2 ^ (ey - e3)) by (apply pow2_le; lia).
    change (2 ^ 1) with 2 in H2.
    assert (2 ^ 23 * 2 <= Z.pos my * 2 ^ (ey - e3))
      by (apply Z.mul_le_mono_nonneg; lia).
    lia.
Qed.

(** The product of two values of the format needs no alignment. *)
Lemma mul_aligned (mp : positive) (ep : Z) (mf : positive) (ef : Z) :
  bounded 24 128 mp ep = true -> bounded 24 128 mf ef = true ->
  ep + ef <= fexp 24 128 (Zdigits2 (Z.pos (mp * mf)) + (ep + ef)).
Proof.
  intros Hp Hf. unfold bounded, canonical_mantissa in Hp, Hf.
  apply andb_prop in Hp, Hf. destruct Hp as [Hp _], Hf as [Hf _].
  apply Z.eqb_eq in Hp, Hf. rewrite fexp_eq in Hp, Hf |- *.
  pose proof (digits2_bounds mp) as [Hlp _].
  pose proof (digits2_bounds mf) as [Hlf _].
  set (dp := Z.pos (digits2_pos mp)) in *.
  set (df := Z.pos (digits2_pos mf)) in *.
  assert (Hdp : 1 <= dp) by (unfold dp; lia).
  assert (Hdf : 1 <= df) by (unfold df; lia).
  assert (Hd : dp + df - 2 < Zdigits2 (Z.pos (mp * mf))).
  { apply Zdigits2_gt; [lia|].
    replace (dp + df - 2) with ((dp - 1) + (df - 1)) by lia.
    rewrite Z.pow_add_r by lia. rewrite Pos2Z.inj_mul.
    apply Z.mul_le_mono_nonneg; try assumption; apply Z.lt_le_incl, pow2_gt0; lia. }
  lia.
Qed.

Lemma truncate_ge (k : Z) (m : positive) (e : Z) :
  (inject_Z k <= val (Z.pos m) e)%Q -> k <= truncate (S754_finite false m e).
Proof.
  intros Hle. cbn [truncate].
  destruct (Z.leb_spec 0 e) as [He|He].
  - rewrite <- (val_0 k) in Hle.
    rewrite (val_shift (Z.pos m) e e He) in Hle.
    replace (e - e) with 0 in Hle by lia.
    apply val_le in Hle. exact Hle.
  - rewrite <- (val_0 k) in Hle.
    rewrite (val_shift k 0 (- e)) in Hle by lia.
    replace (0 - - e) with e in Hle by lia.
    apply val_le in Hle.
    apply Z.div_le_lower_bound; [apply pow2_gt0; lia | lia].
Qed.

(** The exact product of two positive values of the format is below the
    successor of the cell computed from the rounded product. *)
Lemma product_below_next_cell (mp : positive) (ep : Z) (mf : positive) (ef : Z) :
  bounded 24 128 mp ep = true -> bounded 24 128 mf ef = true ->
  saturate32 (truncate (SFmul 24 128 (S754_finite false mp ep)
                          (S754_finite false mf ef))) + 1 < 2 ^ 24 ->
  (val (Z.pos mp) ep * val (Z.pos mf) ef
   < inject_Z (saturate32 (truncate (SFmul 24 128 (S754_finite false mp ep)
                                       (S754_finite false mf ef))) + 1))%Q.
Proof.
  intros Hp Hf. cbn [SFmul xorb].
  set (mx := Z.pos (mp * mf)). set (ex := ep + ef).
  set (r := binary_round_aux 24 128 false mx ex loc_Exact).
  set (c := saturate32 (truncate r)). intros Hc.
  assert (Hc0 : 0 <= c) by (unfold c, saturate32; lia).
  destruct (Qlt_le_dec (val (Z.pos mp) ep * val (Z.pos mf) ef) (inject_Z (c + 1)))
    as [Hlt|Hge]; [exact Hlt|]. exfalso.
  rewrite val_mul, <- Pos2Z.inj_mul in Hge. fold mx ex in Hge.
  pose proof (mul_aligned mp ep mf ef Hp Hf) as Hal. fold mx ex in Hal.
  destruct (binary_round_aux_spec mx ex loc_Exact ltac:(unfold mx; lia) Hal)
    as (m3 & e3 & Hr & Hm3 & He3 & Hdown & _).
  fold r in Hr.
  assert (Hrd : (val (c + 1) 0 <= val m3 e3)%Q).
  { eapply Qle_trans; [|exact Hdown].
    apply round_down_ge; [lia | lia | unfold mx; lia | exact Hal |].
    rewrite val_0. eapply Qle_lt_trans; [exact Hge|]. apply val_lt. lia. }
  rewrite val_0 in Hrd.
  destruct m3 as [|m3|m3]; [| |lia].
  - unfold val in Hrd. rewrite Qmult_0_l in Hrd.
    change 0%Q with (inject_Z 0) in Hrd.
    rewrite <- (Zle_Qle (c + 1) 0) in Hrd. lia.
  - cbn [rounded] in Hr. destruct (e3 <=? 104).
    + pose proof (truncate_ge (c + 1) m3 e3 Hrd) as Ht.
      rewrite <- Hr in Ht. unfold c, saturate32 in Hc, Ht. clear - Hc Ht. lia.
    + unfold c in Hc. rewrite Hr in Hc. vm_compute in Hc. discriminate.
Qed.

Lemma iter_xO (p d : positive) :
  Z.pos (Pos.iter xO p d) = Z.pos p * 2 ^ Z.pos d.
Proof.
  induction d as [|d IH] using Pos.peano_ind.
  - cbn [Pos.iter]. change (Z.pos p~0) with (2 * Z.pos p). lia.
  - rewrite Pos.iter_succ, Pos2Z.inj_succ, Z.pow_succ_r by lia.
    change (Z.pos (Pos.iter xO p d)~0) with (2 * Z.pos (Pos.iter xO p d)).
    rewrite IH. lia.
Qed.

(** [float(n)] for [1 <= n < 2^24] is a finite float of value [n]. *)
Lemma float_of_small_uint (n : Z) :
  1 <= n < 2 ^ 24 ->
  exists (mN : positive) (eN : Z),
    binary_normalize 24 128 n 0 false = S754_finite false mN eN /\
    (val (Z.pos mN) eN == inject_Z n)%Q.
Proof.
  intros Hn. destruct n as [|pn|pn]; try lia.
  cbn [binary_normalize]. unfold binary_round, shl_align.
  pose proof (digits2_bounds pn) as [Hlo Hhi].
  pose proof (Zdigits2_le (Z.pos pn) 24 ltac:(lia) ltac:(lia)) as Hd24.
  cbn [Zdigits2] in Hd24.
  set (dn := Z.pos (digits2_pos pn)) in *.
  assert (Hdn : 1 <= dn) by (unfold dn; lia).
  set (ex' := fexp 24 128 (dn + 0)).
  assert (Hex' : ex' = dn - 24) by (unfold ex'; rewrite fexp_eq; lia).
  destruct (ex' - 0) as [|d|d] eqn:Hd; try lia.
  - destruct (binary_round_aux_spec (Z.pos pn) 0 loc_Exact)
      as (m3 & e3 & Hr & _ & _ & _ & Hex);
      [lia | cbn [Zdigits2]; fold dn; fold ex'; lia |].
    destruct Hex as [-> ->]; [reflexivity | cbn [Zdigits2]; fold dn; fold ex'; lia |].
    exists pn, 0. split; [exact Hr | apply val_0].
  - set (mz := Pos.iter xO pn d).
    assert (Hmz : Z.pos mz = Z.pos pn * 2 ^ Z.pos d) by apply iter_xO.
    assert (Hd' : Z.pos d = 24 - dn) by lia.
    assert (H2d : 0 < 2 ^ Z.pos d) by (apply pow2_gt0; lia).
    assert (Hbz : 2 ^ 23 <= Z.pos mz < 2 ^ 24).
    { rewrite Hmz. split.
      - replace 23 with ((dn - 1) + Z.pos d) by lia.
        rewrite Z.pow_add_r by lia. apply Z.mul_le_mono_nonneg_r; lia.
      - replace 24 with (dn + Z.pos d) by lia.
        rewrite Z.pow_add_r by lia. apply Z.mul_lt_mono_pos_r; lia. }
    assert (Hdz : Zdigits2 (Z.pos mz) = 24).
    { pose proof (Zdigits2_le (Z.pos mz) 24 ltac:(lia) ltac:(lia)).
      pose proof (Zdigits2_gt (Z.pos mz) 23 ltac:(lia) ltac:(lia)). lia. }
    destruct (binary_round_aux_spec (Z.pos mz) ex' loc_Exact)
      as (m3 & e3 & Hr & _ & _ & _ & Hex);
      [lia | rewrite Hdz, fexp_eq; lia |].
    destruct Hex as [-> ->]; [reflexivity | rewrite Hdz, fexp_eq; lia |].
    exists mz, ex'. split.
    + rewrite Hr. cbn [rounded].
      destruct (Z.leb_spec ex' 104); [reflexivity | lia].
    + rewrite Hmz. rewrite <- val_0.
      rewrite (val_shift (Z.pos pn) 0 (Z.pos d)) by lia.
      replace (0 - Z.pos d) with ex' by lia. reflexivity.
Qed.

(** The quotient that [SFdiv] rounds: it needs no alignment, and the
    dividend lies below [(q + 1) * 2^e'] times the divisor. *)
Lemma div_core_spec (m1 e1 m2 e2 : Z) :
  0 < m1 -> 0 < m2 ->
  exists (q e' : Z) (l : location),
    SFdiv_core_binary 24 128 m1 e1 m2 e2 = (q, e', l) /\
    0 <= q /\
    e' <= fexp 24 128 (Zdigits2 q + e') /\
    (val m1 e1 < val (q + 1) e' * val m2 e2)%Q.
Proof.
  intros H1 H2. unfold SFdiv_core_binary.
  destruct (Zdigits2_bounds m1 H1) as [Hd1 [Hlo1 _]].
  destruct (Zdigits2_bounds m2 H2) as [Hd2 [_ Hhi2]].
  set (d1 := Zdigits2 m1) in *. set (d2 := Zdigits2 m2) in *.
  set (e' := Z.min (fexp 24 128 (d1 + e1 - (d2 + e2))) (e1 - e2)).
  set (s := e1 - e2 - e').
  assert (Hs : 0 <= s) by (unfold s, e'; lia).
  pose proof (pow2_gt0 s Hs) as H2s.
  set (m' := match s with
             | 0 => m1
             | Z.pos _ => Z.shiftl m1 s
             | Z.neg _ => 0
             end).
  assert (Hm' : m' = m1 * 2 ^ s).
  { unfold m'. destruct s as [|ps|ps] eqn:Es; try lia.
    apply Z.shiftl_mul_pow2. lia. }
  pose proof (Z_div_mod m' m2 ltac:(lia)) as Hdm.
  destruct (Z.div_eucl m' m2) as [q r]. destruct Hdm as [Hdm Hr].
  assert (Hq : 0 <= q) by nia.
  exists q, e', (new_location m2 r). split; [reflexivity|]. split; [exact Hq|].
  split.
  - rewrite fexp_eq.
    destruct (Z_le_gt_dec e' (-149)) as [Hsmall|Hbig]; [lia|].
    assert (He' : e' <= d1 + e1 - (d2 + e2) - 24)
      by (unfold e' in *; rewrite fexp_eq in *; lia).
    set (t := d1 + s - 1 - d2).
    assert (Ht : 23 <= t) by (unfold t, s; lia).
    assert (Hqt : 2 ^ t <= q).
    { assert (Hge : 2 ^ t * m2 <= m').
      { rewrite Hm'.
        apply Z.le_trans with (2 ^ t * 2 ^ d2);
          [apply Z.mul_le_mono_nonneg_l; [apply Z.lt_le_incl, pow2_gt0|]; lia|].
        rewrite <- Z.pow_add_r by lia.
        replace (t + d2) with ((d1 - 1) + s) by (unfold t; lia).
        rewrite Z.pow_add_r by lia.
        apply Z.mul_le_mono_nonneg_r; lia. }
      pose proof (pow2_gt0 t ltac:(lia)).
      destruct (Z_le_gt_dec (2 ^ t) q) as [Hok|Hno]; [exact Hok|]. exfalso.
      assert (m2 * (q + 1) <= m2 * 2 ^ t)
        by (apply Z.mul_le_mono_nonneg_l; lia).
      lia. }
    pose proof (Zdigits2_gt q t ltac:(lia) Hqt). unfold t, s in *. lia.
  - rewrite val_mul.
    rewrite (val_shift m1 e1 s Hs).
    replace (e1 - s) with (e' + e2) by (unfold s; lia).
    apply val_lt. rewrite <- Hm'. nia.
Qed.

Lemma bounded_range (m : positive) (e : Z) :
  bounded 24 128 m e = true -> Z.pos m < 2 ^ 24 /\ -149 <= e.
Proof.
  intros Hb. unfold bounded, canonical_mantissa in Hb.
  apply andb_prop in Hb. destruct Hb as [Hcan _].
  apply Z.eqb_eq in Hcan. rewrite fexp_eq in Hcan.
  pose proof (digits2_bounds m) as [_ Hhi]. split; [|lia].
  apply Z.lt_le_trans with (2 ^ Z.pos (digits2_pos m)); [exact Hhi|].
  apply pow2_le. lia.
Qed.

Lemma val_pos (m : positive) (e : Z) : (0 < val (Z.pos m) e)%Q.
Proof.
  unfold val. apply Qmult_lt_0_compat; [reflexivity | apply pow2_pos].
Qed.

(** One axis of the upper bound: the position is not above the upper
    corner of its cell. *)
Lemma cell_upper_bound (p f : spec_float) :
  nonnegative p = true -> positiveFinite f = true ->
  saturate32 (truncate (SFmul 24 128 p f)) + 1 < 2 ^ 24 ->
  SFleb p
    (SFdiv 24 128
       (binary_normalize 24 128
          (wrap32 (saturate32 (truncate (SFmul 24 128 p f)) + 1)) 0 false)
       f) = true.
Proof.
  intros Hp Hf Hc.
  destruct f as [| | |[] mf ef]; try discriminate.
  cbn [positiveFinite valid_binary] in Hf.
  set (c := saturate32 (truncate (SFmul 24 128 p (S754_finite false mf ef)))) in *.
  assert (Hc0 : 0 <= c) by (unfold c, saturate32; lia).
  unfold wrap32. rewrite Z.mod_small by lia.
  destruct (float_of_small_uint (c + 1) ltac:(lia)) as (mN & eN & HN & HvN).
  rewrite HN. cbn [SFdiv xorb].
  destruct (div_core_spec (Z.pos mN) eN (Z.pos mf) ef ltac:(lia) ltac:(lia))
    as (q & e' & l & Hcore & Hq & Hal & Hlt).
  rewrite Hcore.
  destruct (binary_round_aux_spec q e' l Hq Hal)
    as (m3 & e3 & Hr & Hm3 & He3 & Hdown & _).
  rewrite Hr.
  destruct p as [sp| | |[] mp ep]; try discriminate.
  - destruct m3 as [|m3|m3]; cbn [rounded]; [reflexivity | | lia].
    destruct (e3 <=? 104); reflexivity.
  - cbn [nonnegative valid_binary] in Hp.
    pose proof (product_below_next_cell mp ep mf ef Hp Hf Hc) as HA.
    fold c in HA.
    destruct (bounded_range mp ep Hp) as [Hmp Hep].
    assert (Hpq : (val (Z.pos mp) ep < val (q + 1) e')%Q).
    { apply (Qmult_lt_r _ _ (val (Z.pos mf) ef) (val_pos mf ef)).
      eapply Qlt_trans; [exact HA|]. rewrite <- HvN. exact Hlt. }
    assert (Hle : (val (Z.pos mp) ep <= val m3 e3)%Q).
    { eapply Qle_trans; [|exact Hdown].
      apply round_down_ge; [lia | exact Hep | exact Hq | exact Hal | exact Hpq]. }
    destruct m3 as [|m3|m3]; cbn [rounded]; [| | lia].
    + exfalso. pose proof (val_pos mp ep) as Hpos.
      unfold val in Hle at 2. rewrite Qmult_0_l in Hle.
      apply (Qlt_irrefl 0). eapply Qlt_le_trans; [exact Hpos | exact Hle].
    + destruct (e3 <=? 104); [|reflexivity].
      apply canonical_le; [exact Hp | lia | exact He3 | exact Hle].
Qed.

(** One axis of the upper bound, in the operations of the [float]
    interface. *)
Lemma binary32_cell_upper (p f : spec_float) :
  addressable p f ->
  fleb p (fdiv (float_of_uint (wrap32 (uint_of_float (fmul p f) + 1))) f) = true.
Proof.
  intros (Hp & Hf & Hc). exact (cell_upper_bound p f Hp Hf Hc).
Qed.
End Binary32Facts.

Section ContainmentFacts.
Import ExactFloat Binary32.

(** C7, as amended.  In exact arithmetic, for a position in the unit cube
    and a level whose layout is positive (and below 2^32 - 1) on every
    axis, the bounds that [getBrickCorners] gives for the cell that
    [computeBrickCoords] gives contain the position on every axis.  In
    binary32, for a position whose components are zero or positive and
    finite, a layout whose components are positive and finite, and a
    computed cell below 2^24 - 1 on every axis, the position is not above
    the upper corner of these bounds on any axis; the lower corner can
    exceed the position by a rounding error. *)
Theorem C7_bounds_contain_position (pq : vec3 Q)
    (levelsQ : Z -> LevelData Q) (p : vec3 spec_float)
    (levelArray : Z -> LevelData spec_float) (L : Z) :
  inUnitCube pq ->
  layoutInRange (fractionalBrickLayout (levelsQ L)) ->
  addressable3 p (fractionalBrickLayout (levelArray L)) ->
  between3
    (corner0 (getBrickCorners (computeBrickCoords pq levelsQ L) levelsQ))
    pq
    (corner1 (getBrickCorners (computeBrickCoords pq levelsQ L) levelsQ))
  = true /\
  below3 p
    (corner1 (getBrickCorners (computeBrickCoords p levelArray L) levelArray))
  = true.
Proof.
  intros Hcube Hlay (Hx & Hy & Hz).
  split; [exact (exact_bounds_contain_position pq levelsQ L Hcube Hlay)|].
  unfold below3, getBrickCorners, computeBrickCoords. cbn [w xyz].
  unfold zip3, map3. cbn [vx vy vz corner0 corner1].
  rewrite (binary32_cell_upper _ _ Hx), (binary32_cell_upper _ _ Hy),
    (binary32_cell_upper _ _ Hz).
  reflexivity.
Qed.

(** The exact half on the sample hierarchy, the binary32 half on the
    position and layout of the counterexample below. *)
Lemma C7_witness :
  between3
    (corner0 (getBrickCorners (computeBrickCoords demoEntry oneBrickLevels 0)
                oneBrickLevels))
    demoEntry
    (corner1 (getBrickCorners (computeBrickCoords demoEntry oneBrickLevels 0)
                oneBrickLevels))
  = true /\
  below3 roundedEntry
    (corner1 (getBrickCorners (computeBrickCoords roundedEntry roundedLevels 0)
                roundedLevels))
  = true.
Proof.
  apply (C7_bounds_contain_position demoEntry oneBrickLevels roundedEntry
           roundedLevels 0).
  - unfold inUnitCube. cbn. repeat split; discriminate.
  - unfold layoutInRange. cbn. repeat split.
  - repeat split; vm_compute; reflexivity.
Defined.
End ContainmentFacts.

Section RoundedAddressing.
Import Binary32.

(** C7 as the claim states it fails in binary32: the position lies in the
    unit cube and the layout is positive, the product rounds up to 33,
    and the lower corner 33 / layout of cell 33 is one unit in the last
    place above the position. *)
Lemma C7_counterexample :
  between3 (splat (float_of_uint 0)) roundedEntry (splat (float_of_uint 1)) = true /\
  between3 (splat (float_of_uint 0))
    (fractionalBrickLayout (roundedLevels 0))
    (fractionalBrickLayout (roundedLevels 0)) = true /\
  xyz (computeBrickCoords roundedEntry roundedLevels 0) = splat 33 /\
  fleb (vx (corner0 (getBrickCorners
                       (computeBrickCoords roundedEntry roundedLevels 0)
                       roundedLevels)))
       (vx roundedEntry) = false /\
  between3
    (corner0 (getBrickCorners (computeBrickCoords roundedEntry roundedLevels 0)
                roundedLevels))
    roundedEntry
    (corner1 (getBrickCorners (computeBrickCoords roundedEntry roundedLevels 0)
                roundedLevels))
  = false.
Proof. vm_compute. repeat split. Qed.
End RoundedAddressing.

(** ** The level-of-detail law *)

Section LODFacts.
Import Binary32.
Context `{MetalLog spec_float}.
Context (cfg : Config) (lodCfg : LODConfig spec_float).

(** The conversion to [uint] of a finite value is its floor, clamped to the
    range of [uint]: for a negative value both the integer part towards
    zero and the floor are at most 0. *)
Lemma saturate32_truncate (s : bool) (m : positive) (e : Z) :
  saturate32 (truncate (S754_finite s m e))
  = clampZ (floor (S754_finite s m e)) 0 (2 ^ 32 - 1).
Proof.
  unfold saturate32, clampZ. cbn [truncate floor].
  destruct (Z.leb_spec 0 e) as [He|He].
  - assert (0 < Z.pos m * 2 ^ e)
      by (apply Z.mul_pos_pos; [lia | apply Z.pow_pos_nonneg; lia]).
    destruct s; cbn [cond_Zopp]; lia.
  - assert (HP : 0 < 2 ^ (- e)) by (apply Z.pow_pos_nonneg; lia).
    destruct s; cbn [cond_Zopp]; [|lia].
    assert (0 <= Z.pos m / 2 ^ (- e)) by (apply Z.div_pos; lia).
    assert (- Z.pos m / 2 ^ (- e) < 0)
      by (apply Z.div_lt_upper_bound; lia).
    lia.
Qed.

End LODFacts.


(** ** Further properties of the miss-report table *)

Section HashtableMore.
Context (cfg : Config).

(** A run of the probing loop that changes the buffer changes one of the
    slots it probes, and that slot was free. *)
Lemma probeLoop_writes_probe (spurious : Z -> bool) (n : nat) (idx h i : Z)
    (buf : list Z) :
  probeLoop cfg spurious n idx h i buf = buf
  \/ exists k : nat, (k < n)%nat /\
       buf !! probeSlot cfg h (i + Z.of_nat k) = Some EMPTY_SLOT /\
       probeLoop cfg spurious n idx h i buf
         = <[probeSlot cfg h (i + Z.of_nat k) := idx]> buf.
Proof.
  revert i. induction n as [|n IH]; intros i; [left; reflexivity|].
  assert (Hnext : probeLoop cfg spurious n idx h (i + 1) buf = buf
            \/ exists k : nat, (k < S n)%nat /\
                 buf !! probeSlot cfg h (i + Z.of_nat k) = Some EMPTY_SLOT /\
                 probeLoop cfg spurious n idx h (i + 1) buf
                   = <[probeSlot cfg h (i + Z.of_nat k) := idx]> buf).
  { destruct (IH (i + 1)) as [Heq | (k & Hk & Hfree & Heq)];
      [left; exact Heq|].
    right. exists (S k).
    replace (i + Z.of_nat (S k)) with (i + 1 + Z.of_nat k) by lia.
    split; [lia|]. split; assumption. }
  cbn [probeLoop]. unfold atomic_compare_exchange_weak.
  destruct (buf !! probeSlot cfg h i) as [v|] eqn:Hs.
  - destruct (Z.eqb_spec v EMPTY_SLOT) as [->|Hne].
    + destruct (spurious i); cbn [negb andb].
      * destruct (EMPTY_SLOT =? idx); [left; reflexivity | exact Hnext].
      * right. exists 0%nat. rewrite Z.add_0_r.
        split; [lia|]. split; [exact Hs | reflexivity].
    + cbn [andb]. destruct (v =? idx); [left; reflexivity | exact Hnext].
  - destruct (EMPTY_SLOT =? idx); [left; reflexivity | exact Hnext].
Qed.

(** X1. [reportMissingBrick] works inside its probe window: whatever the
    buffer and whichever exchanges fail spuriously, its length is unchanged
    and every slot that is not one of the [MAX_PROBING_ATTEMPTS] slots
    probed for [idx] holds what it held. *)
Theorem X1_reportMissingBrick_frame (spurious : Z -> bool) (idx : Z)
    (buf : list Z) :
  length (reportMissingBrick cfg spurious idx buf) = length buf /\
  forall s : nat,
    (forall k : nat, (k < MAX_PROBING_ATTEMPTS cfg)%nat -> s <> slotOf cfg idx k) ->
    reportMissingBrick cfg spurious idx buf !! s = buf !! s.
Proof.
  unfold reportMissingBrick, slotOf.
  destruct (probeLoop_writes_probe spurious (MAX_PROBING_ATTEMPTS cfg) idx
              (hashIndexOf cfg idx) 0 buf) as [-> | (k & Hk & _ & ->)].
  - split; [reflexivity | intros s _; reflexivity].
  - split; [apply length_insert|].
    intros s Hs. apply list_lookup_insert_ne.
    rewrite Z.add_0_l. intros E. apply (Hs k Hk). symmetry. exact E.
Qed.

(** Reporting the free marker itself changes nothing. *)
Lemma report_marker (spurious : Z -> bool) (buf : list Z) :
  reportMissingBrick cfg spurious EMPTY_SLOT buf = buf.
Proof.
  destruct (report_cases cfg spurious EMPTY_SLOT buf) as [-> | (s & Hfree & ->)];
    [reflexivity|].
  apply list_insert_id. exact Hfree.
Qed.

(** X2. When no compare-exchange fails spuriously (neither in the reports
    that built the table from the cleared one nor in the report of [idx]),
    a brick index (not the free marker) is in the table after it is reported
    exactly when one of its [MAX_PROBING_ATTEMPTS] probe slots was free or
    already held it. *)
Theorem X2_reported_iff_window_has_room (spurious : Z -> bool)
    (indices : list Z) (idx : Z) :
  (forall j : Z, spurious j = false) ->
  0 < HASHTABLE_SIZE cfg ->
  idx <> EMPTY_SLOT ->
  (exists s : nat,
      reportMissingBrick cfg spurious idx
        (reportAll cfg allReliable indices (clearedTable cfg)) !! s
        = Some idx)
  <-> (exists k : nat, (k < MAX_PROBING_ATTEMPTS cfg)%nat /\
         (reportAll cfg allReliable indices (clearedTable cfg) !! slotOf cfg idx k
            = Some EMPTY_SLOT \/
          reportAll cfg allReliable indices (clearedTable cfg) !! slotOf cfg idx k
            = Some idx)).
Proof.
  intros Hrel HH Hidx.
  destruct (reportAll_invariant cfg indices (clearedTable cfg)
              (sized_cleared cfg HH) (wellPlaced_cleared cfg)) as [Hsz Hwp].
  set (buf := reportAll cfg allReliable indices (clearedTable cfg)) in *.
  destruct (report_spec cfg spurious idx buf Hrel Hsz)
    as [[Heq Hall] | (k & Hk & _ & [[Hfree Heq] | [Hthere Heq]])]; rewrite Heq.
  - split.
    + intros [s Hs]. destruct (Hwp s idx Hs Hidx) as (k & Hk & -> & _).
      exists k. split; [exact Hk | right; exact Hs].
    + intros (k & Hk & [Hfree | Hthere]); destruct (Hall k Hk) as [H1 H2];
        contradiction.
  - split.
    + intros _. exists k. split; [exact Hk | left; exact Hfree].
    + intros _. exists (slotOf cfg idx k). apply list_lookup_insert_eq.
      apply lookup_lt_Some with EMPTY_SLOT. exact Hfree.
  - split.
    + intros _. exists k. split; [exact Hk | right; exact Hthere].
    + intros _. exists (slotOf cfg idx k). exact Hthere.
Qed.

(** X3. When no compare-exchange fails spuriously (neither in the reports
    that built the table from the cleared one nor in the two reports of
    [idx]), reporting the same index twice in a row gives the table that
    reporting it once gives, whether the first report was stored, found the
    index or was dropped. *)
Theorem X3_report_twice_is_report_once (first second : Z -> bool)
    (indices : list Z) (idx : Z) :
  (forall j : Z, first j = false) ->
  (forall j : Z, second j = false) ->
  0 < HASHTABLE_SIZE cfg ->
  reportMissingBrick cfg second idx
    (reportMissingBrick cfg first idx
       (reportAll cfg allReliable indices (clearedTable cfg)))
  = reportMissingBrick cfg first idx
      (reportAll cfg allReliable indices (clearedTable cfg)).
Proof.
  intros Hfirst Hsecond HH.
  destruct (reportAll_invariant cfg indices (clearedTable cfg)
              (sized_cleared cfg HH) (wellPlaced_cleared cfg)) as [Hsz Hwp].
  set (buf := reportAll cfg allReliable indices (clearedTable cfg)) in *.
  destruct (Z.eq_dec idx EMPTY_SLOT) as [->|Hidx].
  { rewrite !report_marker. reflexivity. }
  pose proof (sized_report cfg first idx buf Hsz) as Hsz'.
  pose proof (wellPlaced_report cfg first idx buf Hfirst Hsz Hwp) as Hwp'.
  destruct (report_spec cfg first idx buf Hfirst Hsz)
    as [[Heq Hall] | (k & Hk & _ & [[Hfree Heq] | [Hthere Heq]])].
  - rewrite Heq.
    destruct (report_spec cfg second idx buf Hsecond Hsz)
      as [[Heq2 _] | (k & Hk & _ & [[Hfree _] | [Hthere Heq2]])];
      [exact Heq2 | | exact Heq2].
    destruct (Hall k Hk) as [Hb _]. contradiction.
  - apply (report_present cfg second _ idx (slotOf cfg idx k) Hsecond Hsz' Hwp' Hidx).
    rewrite Heq. apply list_lookup_insert_eq.
    apply lookup_lt_Some with EMPTY_SLOT. exact Hfree.
  - rewrite Heq.
    exact (report_present cfg second buf idx _ Hsecond Hsz Hwp Hidx Hthere).
Qed.

(** X4. A run of reports puts nothing into the table but the reported
    indices, whichever exchanges fail spuriously: a word found in a slot
    afterwards was there before or is one of the indices reported. *)
Theorem X4_table_holds_only_reports (spurious : nat -> Z -> bool)
    (indices : list Z) (buf : list Z) (s : nat) (v : Z) :
  reportAll cfg spurious indices buf !! s = Some v ->
  buf !! s = Some v \/ In v indices.
Proof.
  revert spurious buf.
  induction indices as [|i indices IH]; intros spurious buf Hs;
    [left; exact Hs|].
  cbn [reportAll] in Hs.
  destruct (IH _ _ Hs) as [Hmid | Hin]; [|right; right; exact Hin].
  destruct (report_cases cfg (spurious 0%nat) i buf) as [Heq | (s0 & _ & Heq)];
    rewrite Heq in Hmid; [left; exact Hmid|].
  destruct (Nat.eq_dec s0 s) as [->|Hne].
  - destruct (lookup_lt_is_Some_2 buf s) as [v0 Hv0].
    + rewrite <- (length_insert buf s i). apply lookup_lt_Some with v. exact Hmid.
    + rewrite list_lookup_insert_eq in Hmid
        by (apply lookup_lt_Some with v0; exact Hv0).
      injection Hmid as <-. right. left. reflexivity.
  - rewrite list_lookup_insert_ne in Hmid by exact Hne. left. exact Hmid.
Qed.
End HashtableMore.

Lemma X1_witness :
  reportMissingBrick dummy firstFails 0 crowded !! 77%nat = crowded !! 77%nat.
Proof.
  apply (X1_reportMissingBrick_frame dummy firstFails 0 crowded).
  intros k Hk. cbn in Hk.
  do 10 (destruct k as [|k]; [vm_compute; discriminate|]).
  lia.
Defined.

Lemma X2_witness :
  (exists s : nat,
      reportMissingBrick dummy reliable 42
        (reportAll dummy allReliable [7] (clearedTable dummy)) !! s
        = Some 42)
  <-> (exists k : nat, (k < MAX_PROBING_ATTEMPTS dummy)%nat /\
         (reportAll dummy allReliable [7] (clearedTable dummy) !! slotOf dummy 42 k
            = Some EMPTY_SLOT \/
          reportAll dummy allReliable [7] (clearedTable dummy) !! slotOf dummy 42 k
            = Some 42)).
Proof.
  apply (X2_reported_iff_window_has_room dummy reliable [7] 42).
  - intros j. reflexivity.
  - reflexivity.
  - discriminate.
Defined.

Lemma X3_witness :
  reportMissingBrick dummy reliable 0 (reportMissingBrick dummy reliable 0 crowded)
  = reportMissingBrick dummy reliable 0 crowded.
Proof.
  apply (X3_report_twice_is_report_once dummy reliable reliable
           (map (fun k => 128 * Z.of_nat k) (seq 1 10)) 0).
  - intros j. reflexivity.
  - intros j. reflexivity.
  - reflexivity.
Defined.

Lemma X4_witness :
  clearedTable dummy !! 10%nat = Some 42 \/ In 42 [7; 42].
Proof.
  apply (X4_table_holds_only_reports dummy allReliable [7; 42]
           (clearedTable dummy) 10 42).
  vm_compute. reflexivity.
Defined.

(** ** The hash *)

Section HashFacts.
Context (cfg : Config).

Lemma odd_multiplier_cancels (n a : Z) :
  0 <= n -> (2 ^ n | a * 2654435761) -> (2 ^ n | a).
Proof.
  intros Hn Hd. apply Z.gauss with 2654435761.
  - rewrite Z.mul_comm. exact Hd.
  - apply Z.coprime_pow_l; [exact Hn | reflexivity].
Qed.

(** X5. When the table size is a power of two (at most 2^32), two brick
    indices start probing at the same slot exactly when they are congruent
    modulo the table size: the multiplier is odd, so the hash permutes the
    residues, and indices one table size apart always collide. *)
Theorem X5_same_start_iff_congruent (n i j : Z) :
  0 <= n <= 32 ->
  HASHTABLE_SIZE cfg = 2 ^ n ->
  hashIndexOf cfg i = hashIndexOf cfg j
  <-> i mod HASHTABLE_SIZE cfg = j mod HASHTABLE_SIZE cfg.
Proof.
  intros Hn HH. unfold hashIndexOf, simpleHash, wrap32. rewrite HH.
  assert (Hdiv : (2 ^ n | 2 ^ 32)).
  { exists (2 ^ (32 - n)). rewrite <- Z.pow_add_r by lia. f_equal. lia. }
  rewrite !(Z.mod_mod_divide _ _ _ Hdiv).
  assert (Hpos : 2 ^ n <> 0) by (apply Z.pow_nonzero; lia).
  rewrite !Z.cong_iff_0, !Z.mod_divide by exact Hpos.
  rewrite <- Z.mul_sub_distr_r.
  split.
  - apply odd_multiplier_cancels. lia.
  - intros Hd. apply Z.divide_mul_l. exact Hd.
Qed.
End HashFacts.

Lemma X5_witness :
  hashIndexOf dummy 5 = hashIndexOf dummy 133
  <-> 5 mod HASHTABLE_SIZE dummy = 133 mod HASHTABLE_SIZE dummy.
Proof.
  apply (X5_same_start_iff_congruent dummy 7 5 133).
  - lia.
  - reflexivity.
Defined.

(** ** Further properties of the resolver *)

Section GetBrickMore.
Context {F : Type} `{MetalFloat F}.
Context (cfg : Config) (pool : PoolConfig F).
Context (entry : vec3 F) (direction : vec3 F) (cubeBounds : BrickCorners F).
Context (brickMeta : Z -> Z) (levelArray : Z -> LevelData F).
Context (spurious : nat -> Z -> bool).

Local Abbreviation stateAt := (brickInfoAt (clampEntry entry) brickMeta levelArray).
Local Abbreviation indexAt :=
  (fun lod => getBrickIndex (computeBrickCoords (clampEntry entry) levelArray lod)
                levelArray).
Local Abbreviation resolve :=
  (fun fuel iLOD => getBrick cfg pool fuel spurious entry iLOD direction cubeBounds
                      brickMeta levelArray).

(** X6. A brick that is resident at the requested level is returned as it
    is, whatever the flag [dontRequest] and without a round of the miss
    loop: same level, not empty, not a substitute, hash buffer untouched,
    and the pool transform is the one of that brick's residency word. *)
Theorem X6_resident_brick_is_returned (fuel : nat) (iLOD : Z) (hb : list Z)
    (dontRequest : bool) :
  BI_EMPTY < stateAt iLOD ->
  exists info : BrickInformation F,
    resolve fuel iLOD hb dontRequest = Some (info, hb) /\
    LOD info = iLOD /\
    brickIndex info = indexAt iLOD /\
    empty info = false /\
    substitute info = false /\
    poolBrickInfo info
      = Some (normCoordsToPoolCoords pool (clampEntry entry) (normExitCoords info)
                (getBrickCorners (computeBrickCoords (clampEntry entry) levelArray iLOD)
                   levelArray)
                (stateAt iLOD)).
Proof.
  intros Hres. unfold getBrick.
  fold (brickInfoAt (clampEntry entry) brickMeta levelArray iLOD).
  destruct (Z.eqb_spec (stateAt iLOD) BI_MISSING) as [E|_];
    [rewrite E in Hres; discriminate|].
  rewrite andb_false_r.
  destruct (Z.leb_spec (stateAt iLOD) BI_EMPTY) as [Hle|_]; [lia|].
  eexists. split; [reflexivity|]. cbn. repeat split.
Qed.

(** X7. A call that may not report ([dontRequest] set) or has nothing to
    report (the requested brick is not missing) returns whatever the bound
    on the miss loop, leaves the hash buffer as it is, and returns the
    requested level or a coarser one below [LEVEL_COUNT]. *)
Theorem X7_no_report_no_side_effect (fuel : nat) (iLOD : Z) (hb : list Z)
    (dontRequest : bool) :
  0 <= iLOD < 2 ^ 32 - 1 ->
  dontRequest = true \/ stateAt iLOD <> BI_MISSING ->
  exists info : BrickInformation F,
    resolve fuel iLOD hb dontRequest = Some (info, hb) /\
    (LOD info = iLOD \/ iLOD < LOD info < LEVEL_COUNT cfg).
Proof.
  intros HiLOD Hcase. unfold getBrick.
  fold (brickInfoAt (clampEntry entry) brickMeta levelArray iLOD).
  assert (Hcond : negb dontRequest && (stateAt iLOD =? BI_MISSING) = false).
  { destruct Hcase as [-> | Hne]; [reflexivity|].
    apply Z.eqb_neq in Hne. rewrite Hne. apply andb_false_r. }
  rewrite Hcond.
  destruct (stateAt iLOD <=? BI_EMPTY).
  - unfold skipEmpty.
    destruct (skipEmptyFrom_spec cfg (clampEntry entry) brickMeta levelArray
                (Z.to_nat (LEVEL_COUNT cfg - wrap32 (iLOD + 1))) (wrap32 (iLOD + 1))
                (computeBrickCoords (clampEntry entry) levelArray iLOD)
                (stateAt iLOD) iLOD (Nat.le_refl _))
      as [[-> _] | (lod' & -> & Hb & _)].
    + eexists. split; [reflexivity|]. left. reflexivity.
    + eexists. split; [reflexivity|]. right. cbn.
      rewrite wrap32_small in Hb by (unfold is_uint; lia). lia.
  - eexists. split; [reflexivity|]. left. reflexivity.
Qed.

Lemma report_length (oracle : Z -> bool) (idx : Z) (buf : list Z) :
  length (reportMissingBrick cfg oracle idx buf) = length buf.
Proof.
  destruct (report_cases cfg oracle idx buf) as [-> | (s & _ & ->)];
    [reflexivity | apply length_insert].
Qed.

(** The hash buffer a call hands back: the one it got, or that after one
    or two reports. *)
Lemma getBrick_buffer (fuel : nat) (iLOD : Z) (hb : list Z) (dontRequest : bool)
    (info : BrickInformation F) (hb' : list Z) :
  resolve fuel iLOD hb dontRequest = Some (info, hb') ->
  ((dontRequest = true \/ stateAt iLOD <> BI_MISSING) /\ hb' = hb) \/
  (dontRequest = false /\ stateAt iLOD = BI_MISSING /\
   (hb' = reportMissingBrick cfg (spurious 0%nat) (indexAt iLOD) hb \/
    exists last : Z,
      hb' = reportMissingBrick cfg (spurious 1%nat) last
              (reportMissingBrick cfg (spurious 0%nat) (indexAt iLOD) hb))).
Proof.
  unfold getBrick.
  fold (brickInfoAt (clampEntry entry) brickMeta levelArray iLOD).
  destruct (negb dontRequest && (stateAt iLOD =? BI_MISSING)) eqn:Hcond.
  - apply andb_prop in Hcond. destruct Hcond as [Hdr Hmiss].
    apply negb_true_iff in Hdr. apply Z.eqb_eq in Hmiss.
    destruct (lookForLowerRes _ _ _ _ _ _) as [st|]; [|discriminate].
    intros Hret. right. split; [exact Hdr|]. split; [exact Hmiss|].
    destruct (ms_brickInfo st <=? BI_EMPTY);
      [destruct (skipEmpty _ _ _ _ _ _ _) as [[? ?] ?]|];
      injection Hret as _ <-;
      (destruct (REQUEST_LOWRES_LOD cfg =? 1); [|left; reflexivity]);
      (destruct (iLOD <? ms_LOD st); [|left; reflexivity]);
      right; eexists; reflexivity.
  - intros Hret. left. split.
    + apply andb_false_iff in Hcond. destruct Hcond as [Hdr | Hne].
      * left. apply negb_false_iff. exact Hdr.
      * right. apply Z.eqb_neq. exact Hne.
    + destruct (stateAt iLOD <=? BI_EMPTY);
        [destruct (skipEmpty _ _ _ _ _ _ _) as [[? ?] ?]|];
        injection Hret as _ <-; reflexivity.
Qed.

(** X8. [getBrick] never damages the miss-report table: the buffer it hands
    back has the length of the one it got, and every slot that held a
    recorded index still holds it. *)
Theorem X8_getBrick_keeps_reports (fuel : nat) (iLOD : Z) (hb : list Z)
    (dontRequest : bool) (info : BrickInformation F) (hb' : list Z) :
  resolve fuel iLOD hb dontRequest = Some (info, hb') ->
  length hb' = length hb /\
  forall (s : nat) (v : Z),
    hb !! s = Some v -> v <> EMPTY_SLOT -> hb' !! s = Some v.
Proof.
  intros Hret.
  destruct (getBrick_buffer _ _ _ _ _ _ Hret)
    as [[_ ->] | (_ & _ & [-> | (last & ->)])].
  - split; [reflexivity | intros s v Hs _; exact Hs].
  - split; [apply report_length|]. intros s v. apply report_keeps.
  - split; [rewrite !report_length; reflexivity|].
    intros s v Hs Hv. apply report_keeps; [|exact Hv].
    apply report_keeps; assumption.
Qed.

(** X9. The flags of a result describe the brick at the level returned:
    [empty] is set exactly when the residency word at the returned level is
    at most [BI_EMPTY], so a result that is not empty names a resident
    brick; the pool transform is absent exactly for empty results; and
    [brickIndex] stays the index of the brick at the requested level, also
    when a coarser level is returned. *)
Theorem X9_flags_describe_returned_level (fuel : nat) (iLOD : Z) (hb : list Z)
    (dontRequest : bool) (info : BrickInformation F) (hb' : list Z) :
  resolve fuel iLOD hb dontRequest = Some (info, hb') ->
  empty info = (stateAt (LOD info) <=? BI_EMPTY) /\
  (poolBrickInfo info = None <-> empty info = true) /\
  brickIndex info = indexAt iLOD.
Proof.
  unfold getBrick.
  fold (brickInfoAt (clampEntry entry) brickMeta levelArray iLOD).
  assert (Hskip : forall (bc : uint4) (bi start : Z),
             bi = stateAt start -> (bi <=? BI_EMPTY) = true ->
             forall (bc' : uint4) (bi' lod' : Z),
               skipEmpty cfg (clampEntry entry) brickMeta levelArray bc bi start
                 = (bc', bi', lod') ->
               (stateAt lod' <=? BI_EMPTY) = true).
  { intros bc bi start Hbi Hle bc' bi' lod'. unfold skipEmpty.
    destruct (skipEmptyFrom_spec cfg (clampEntry entry) brickMeta levelArray
                (Z.to_nat (LEVEL_COUNT cfg - wrap32 (start + 1)))
                (wrap32 (start + 1)) bc bi start (Nat.le_refl _))
      as [[-> _] | (l & -> & Hb & Hall & _)].
    - intros [= _ _ <-]. rewrite <- Hbi. exact Hle.
    - intros [= _ _ <-]. rewrite (Hall l) by lia. reflexivity. }
  destruct (negb dontRequest && (stateAt iLOD =? BI_MISSING)).
  - destruct (lookForLowerRes _ _ _ _ _ _) as [st|] eqn:Hst; [|discriminate].
    destruct (lookForLowerRes_sound _ _ _ _ _ _ _ Hst) as (_ & _ & _ & Hinfo & _).
    destruct (ms_brickInfo st <=? BI_EMPTY) eqn:Hle.
    + destruct (skipEmpty _ _ _ _ _ _ _) as [[bc' bi'] lod'] eqn:Hsk.
      intros [= <- _]. cbn.
      rewrite (Hskip _ _ _ Hinfo Hle _ _ _ Hsk).
      split; [reflexivity|]. split; [split; reflexivity | reflexivity].
    + intros [= <- _]. cbn. rewrite <- Hinfo, Hle.
      split; [reflexivity|]. split; [split; discriminate | reflexivity].
  - destruct (stateAt iLOD <=? BI_EMPTY) eqn:Hle.
    + destruct (skipEmpty _ _ _ _ _ _ _) as [[bc' bi'] lod'] eqn:Hsk.
      intros [= <- _]. cbn.
      rewrite (Hskip _ _ _ eq_refl Hle _ _ _ Hsk).
      split; [reflexivity|]. split; [split; reflexivity | reflexivity].
    + intros [= <- _]. cbn. rewrite Hle.
      split; [reflexivity|]. split; [split; discriminate | reflexivity].
Qed.

(** X10. A miss that may be reported is recorded.  When the requested
    brick is missing, its index is not the free marker 0xFFFFFFFF, reports
    are allowed, no compare-exchange of the first report fails spuriously
    and one of the probe slots of the index is free or already holds it,
    the index is in the table the call hands back: the second report of the
    call, whatever its exchanges do, cannot displace it. *)
Theorem X10_miss_is_recorded (fuel : nat) (iLOD : Z) (hb : list Z)
    (info : BrickInformation F) (hb' : list Z) :
  (forall j : Z, spurious 0%nat j = false) ->
  sized cfg hb ->
  stateAt iLOD = BI_MISSING ->
  indexAt iLOD <> EMPTY_SLOT ->
  (exists k : nat, (k < MAX_PROBING_ATTEMPTS cfg)%nat /\
     (hb !! slotOf cfg (indexAt iLOD) k = Some EMPTY_SLOT \/
      hb !! slotOf cfg (indexAt iLOD) k = Some (indexAt iLOD))) ->
  resolve fuel iLOD hb false = Some (info, hb') ->
  exists s : nat, hb' !! s = Some (indexAt iLOD).
Proof.
  intros Hrel Hsz Hmiss Hidx (k & Hk & Hroom) Hret.
  assert (Hone : exists s : nat,
             reportMissingBrick cfg (spurious 0%nat) (indexAt iLOD) hb !! s
             = Some (indexAt iLOD)).
  { destruct (report_spec cfg (spurious 0%nat) (indexAt iLOD) hb Hrel Hsz)
      as [[_ Hall] | (k' & _ & _ & [[Hfree ->] | [Hthere ->]])].
    - destruct (Hall k Hk) as [H1 H2]. destruct Hroom; contradiction.
    - exists (slotOf cfg (indexAt iLOD) k'). apply list_lookup_insert_eq.
      apply lookup_lt_Some with EMPTY_SLOT. exact Hfree.
    - exists (slotOf cfg (indexAt iLOD) k'). exact Hthere. }
  destruct Hone as [s Hs].
  destruct (getBrick_buffer _ _ _ _ _ _ Hret)
    as [[[Hdr | Hne] _] | (_ & _ & [-> | (last & ->)])].
  - discriminate.
  - contradiction.
  - exists s. exact Hs.
  - exists s. apply report_keeps; [exact Hs | exact Hidx].
Qed.

(** The brick the loop remembers in [lastBrickIndex] is the one a level
    below the level it stops at; that brick and all bricks from the level
    the loop started at up to it are missing. *)
Lemma lookForLowerRes_last (top : Z) (fuel : nat) (lod : Z) (st : MissState) :
  0 <= lod < top -> top < 2 ^ 32 ->
  stateAt top <> BI_MISSING ->
  stateAt lod = BI_MISSING ->
  lookForLowerRes (clampEntry entry) brickMeta levelArray fuel lod (indexAt lod)
    = Some st ->
  exists prev : Z,
    lod <= prev < top /\
    ms_LOD st = prev + 1 /\
    ms_lastBrickIndex st = indexAt prev /\
    (forall l : Z, lod <= l <= prev -> stateAt l = BI_MISSING) /\
    stateAt (prev + 1) <> BI_MISSING.
Proof.
  intros Hlod Htop Hres. revert lod Hlod.
  induction fuel as [|fuel IH]; intros lod Hlod Hmiss; [discriminate|].
  cbn [lookForLowerRes].
  rewrite (wrap32_small (lod + 1)) by (unfold is_uint; lia).
  fold (brickInfoAt (clampEntry entry) brickMeta levelArray (lod + 1)).
  destruct (Z.eqb_spec (stateAt (lod + 1)) BI_MISSING) as [E|E].
  - destruct (Z.eq_dec (lod + 1) top) as [Et|Et];
      [rewrite Et in E; contradiction|].
    intros Hst. destruct (IH (lod + 1) ltac:(lia) E Hst)
      as (prev & Hb & HL & Hlast & Hpass & Hnm).
    exists prev. split; [lia|]. split; [exact HL|]. split; [exact Hlast|].
    split; [|exact Hnm].
    intros l Hl. destruct (Z.eq_dec l lod) as [->|Hne]; [exact Hmiss|].
    apply Hpass. lia.
  - intros [= <-]. cbn. exists lod.
    split; [lia|]. split; [reflexivity|]. split; [reflexivity|].
    split; [|exact E].
    intros l Hl. replace l with lod by lia. exact Hmiss.
Qed.

(** X11. What a reported miss writes.  With the requested level in the
    hierarchy and the coarsest level not missing, a call that reports a
    miss stops its miss loop at the first level above the requested one
    whose brick is not missing: with [prev] the level just below it, every
    level from the requested one up to [prev] is missing and level
    [prev + 1] is not.  The call hands back the table after the report of
    the requested brick, followed, when [REQUEST_LOWRES_LOD] is 1, by the
    report of the brick at level [prev]. *)
Theorem X11_what_a_miss_reports (fuel : nat) (iLOD : Z) (hb : list Z)
    (info : BrickInformation F) (hb' : list Z) :
  0 <= iLOD < LEVEL_COUNT cfg ->
  LEVEL_COUNT cfg < 2 ^ 32 ->
  stateAt iLOD = BI_MISSING ->
  stateAt (LEVEL_COUNT cfg - 1) <> BI_MISSING ->
  resolve fuel iLOD hb false = Some (info, hb') ->
  exists prev : Z,
    iLOD <= prev < LEVEL_COUNT cfg - 1 /\
    (forall l : Z, iLOD <= l <= prev -> stateAt l = BI_MISSING) /\
    stateAt (prev + 1) <> BI_MISSING /\
    hb' = if REQUEST_LOWRES_LOD cfg =? 1
          then reportMissingBrick cfg (spurious 1%nat) (indexAt prev)
                 (reportMissingBrick cfg (spurious 0%nat) (indexAt iLOD) hb)
          else reportMissingBrick cfg (spurious 0%nat) (indexAt iLOD) hb.
Proof.
  intros HiLOD HLC Hmiss Htop.
  assert (Hlt : iLOD < LEVEL_COUNT cfg - 1).
  { destruct (Z.eq_dec iLOD (LEVEL_COUNT cfg - 1)) as [E|E]; [|lia].
    rewrite E in Hmiss. contradiction. }
  unfold getBrick.
  fold (brickInfoAt (clampEntry entry) brickMeta levelArray iLOD).
  rewrite Hmiss. cbn [negb andb Z.eqb BI_MISSING].
  destruct (lookForLowerRes _ _ _ _ _ _) as [st|] eqn:Hst; [|discriminate].
  destruct (lookForLowerRes_last (LEVEL_COUNT cfg - 1) fuel iLOD st
              ltac:(lia) ltac:(lia) Htop Hmiss Hst)
    as (prev & Hb & HLOD & Hlast & Hpm & Hnm).
  intros Hret. exists prev.
  split; [exact Hb|]. split; [exact Hpm|]. split; [exact Hnm|].
  assert (Hcmp : (iLOD <? ms_LOD st) = true) by (apply Z.ltb_lt; lia).
  rewrite Hcmp, Hlast in Hret.
  destruct (ms_brickInfo st <=? BI_EMPTY);
    [destruct (skipEmpty _ _ _ _ _ _ _) as [[? ?] ?]|];
    injection Hret as _ <-; reflexivity.
Qed.
End GetBrickMore.

Section MoreSamples.
Import ExactFloat.

Local Abbreviation runOn :=
  (fun fuel iLOD words hb dontRequest =>
     getBrick dummy demoPool fuel allReliable demoEntry iLOD demoDirection demoCube
       (metaOf words) oneBrickLevels hb dontRequest).

Local Abbreviation stateOf :=
  (fun words => brickInfoAt (clampEntry demoEntry) (metaOf words) oneBrickLevels).

Local Abbreviation indexOf :=
  (fun lod => getBrickIndex (computeBrickCoords (clampEntry demoEntry) oneBrickLevels lod)
                oneBrickLevels).

Lemma X6_witness :
  exists info : BrickInformation Q,
    runOn 0%nat 0 [5] (clearedTable dummy) false = Some (info, clearedTable dummy) /\
    LOD info = 0 /\
    brickIndex info = indexOf 0 /\
    empty info = false /\
    substitute info = false /\
    poolBrickInfo info
      = Some (normCoordsToPoolCoords demoPool (clampEntry demoEntry)
                (normExitCoords info)
                (getBrickCorners
                   (computeBrickCoords (clampEntry demoEntry) oneBrickLevels 0)
                   oneBrickLevels)
                (stateOf [5] 0)).
Proof.
  apply (X6_resident_brick_is_returned dummy demoPool demoEntry demoDirection
           demoCube (metaOf [5]) oneBrickLevels allReliable 0%nat 0 (clearedTable dummy) false).
  reflexivity.
Defined.

Lemma X7_witness :
  exists info : BrickInformation Q,
    runOn 0%nat 0 [2; 1; 1; 3] (clearedTable dummy) true
      = Some (info, clearedTable dummy) /\
    (LOD info = 0 \/ 0 < LOD info < LEVEL_COUNT dummy).
Proof.
  apply (X7_no_report_no_side_effect dummy demoPool demoEntry demoDirection
           demoCube (metaOf [2; 1; 1; 3]) oneBrickLevels allReliable 0%nat 0
           (clearedTable dummy) true).
  - lia.
  - left. reflexivity.
Defined.

Lemma X8_witness :
  exists (info : BrickInformation Q) (hb' : list Z),
    runOn 3%nat 0 [0; 0; 3] (reportAll dummy allReliable [7] (clearedTable dummy)) false
      = Some (info, hb') /\
    length hb' = length (reportAll dummy allReliable [7] (clearedTable dummy)) /\
    forall (s : nat) (v : Z),
      reportAll dummy allReliable [7] (clearedTable dummy) !! s = Some v ->
      v <> EMPTY_SLOT -> hb' !! s = Some v.
Proof.
  do 2 eexists. split; [vm_compute; reflexivity|].
  eapply (X8_getBrick_keeps_reports dummy demoPool demoEntry demoDirection
            demoCube (metaOf [0; 0; 3]) oneBrickLevels allReliable 3%nat 0
            (reportAll dummy allReliable [7] (clearedTable dummy)) false).
  vm_compute. reflexivity.
Defined.

Lemma X9_witness :
  exists (info : BrickInformation Q) (hb' : list Z),
    runOn 3%nat 0 [0; 0; 2; 1; 3] (clearedTable dummy) false = Some (info, hb') /\
    LOD info = 3 /\
    empty info = (stateOf [0; 0; 2; 1; 3] (LOD info) <=? BI_EMPTY) /\
    (poolBrickInfo info = None <-> empty info = true) /\
    brickIndex info = indexOf 0.
Proof.
  do 2 eexists. split; [vm_compute; reflexivity|]. split; [reflexivity|].
  apply (X9_flags_describe_returned_level dummy demoPool demoEntry demoDirection
           demoCube (metaOf [0; 0; 2; 1; 3]) oneBrickLevels allReliable 3%nat 0
           (clearedTable dummy) false _ (reportAll dummy allReliable [0; 1] (clearedTable dummy))).
  vm_compute. reflexivity.
Defined.

Lemma X10_witness :
  exists (info : BrickInformation Q) (hb' : list Z),
    runOn 3%nat 0 [0; 0; 3] (clearedTable dummy) false = Some (info, hb') /\
    exists s : nat, hb' !! s = Some (indexOf 0).
Proof.
  do 2 eexists. split; [vm_compute; reflexivity|].
  eapply (X10_miss_is_recorded dummy demoPool demoEntry demoDirection
            demoCube (metaOf [0; 0; 3]) oneBrickLevels allReliable 3%nat 0
            (clearedTable dummy)).
  - intros j. reflexivity.
  - split; reflexivity.
  - reflexivity.
  - vm_compute. discriminate.
  - exists 0%nat. split; [cbn; lia | left; vm_compute; reflexivity].
  - vm_compute. reflexivity.
Defined.

Lemma X11_witness :
  exists (info : BrickInformation Q) (hb' : list Z),
    runOn 3%nat 0 [0; 0; 3] (clearedTable dummy) false = Some (info, hb') /\
    exists prev : Z,
      0 <= prev < LEVEL_COUNT dummy - 1 /\
      (forall l : Z, 0 <= l <= prev -> stateOf [0; 0; 3] l = BI_MISSING) /\
      stateOf [0; 0; 3] (prev + 1) <> BI_MISSING /\
      hb' = if REQUEST_LOWRES_LOD dummy =? 1
            then reportMissingBrick dummy reliable (indexOf prev)
                   (reportMissingBrick dummy reliable (indexOf 0) (clearedTable dummy))
            else reportMissingBrick dummy reliable (indexOf 0) (clearedTable dummy).
Proof.
  do 2 eexists. split; [vm_compute; reflexivity|].
  eapply (X11_what_a_miss_reports dummy demoPool demoEntry demoDirection
            demoCube (metaOf [0; 0; 3]) oneBrickLevels allReliable 3%nat 0
            (clearedTable dummy)).
  - vm_compute. split; [discriminate | reflexivity].
  - reflexivity.
  - reflexivity.
  - vm_compute. discriminate.
  - vm_compute. reflexivity.
Defined.
End MoreSamples.

(** ** Further properties of brick addressing *)

Section IndexFacts.
Context {F : Type} `{MetalFloat F}.

(** X12. Within one level, two cells of the grid that get the same brick
    index are the same cell. *)
Theorem X12_getBrickIndex_injective (levelArray : Z -> LevelData F) (L : Z)
    (c1 c2 : vec3 Z) :
  inGrid (levelArray L) c1 ->
  inGrid (levelArray L) c2 ->
  getBrickIndex (mkUint4 c1 L) levelArray = getBrickIndex (mkUint4 c2 L) levelArray ->
  c1 = c2.
Proof.
  destruct c1 as [x1 y1 z1], c2 as [x2 y2 z2].
  unfold inGrid, getBrickIndex. cbn [w xyz vx vy vz].
  set (bx := bricksX (levelArray L)). set (bxy := bricksXTimesBricksY (levelArray L)).
  set (pb := prevBricks (levelArray L)).
  intros (Hp & Hx1 & Hy1 & Hs1 & Hz1 & Hf1) (_ & Hx2 & Hy2 & Hs2 & Hz2 & Hf2).
  assert (Hbx : 0 < bx) by lia.
  assert (Hr1 : 0 <= y1 * bx) by (apply Z.mul_nonneg_nonneg; lia).
  assert (Hr2 : 0 <= y2 * bx) by (apply Z.mul_nonneg_nonneg; lia).
  assert (Hbxy : 0 < bxy) by lia.
  assert (Hq1 : 0 <= z1 * bxy) by (apply Z.mul_nonneg_nonneg; lia).
  assert (Hq2 : 0 <= z2 * bxy) by (apply Z.mul_nonneg_nonneg; lia).
  unfold wrap32. rewrite !Z.mod_small by lia.
  intros E.
  assert (Hz : z1 = z2).
  { destruct (Z.lt_trichotomy z1 z2) as [Hlt | [Heq | Hgt]]; [|exact Heq|].
    - assert (bxy * (z1 + 1) <= bxy * z2) by nia. nia.
    - assert (bxy * (z2 + 1) <= bxy * z1) by nia. nia. }
  subst z2.
  assert (Hy : y1 = y2).
  { destruct (Z.lt_trichotomy y1 y2) as [Hlt | [Heq | Hgt]]; [|exact Heq|].
    - assert (bx * (y1 + 1) <= bx * y2) by nia. nia.
    - assert (bx * (y2 + 1) <= bx * y1) by nia. nia. }
  subst y2. f_equal. lia.
Qed.
End IndexFacts.

Section PoolIndexFacts.
Context {F : Type} (pool : PoolConfig F).

(** X14. [infoToCoords] decodes the pool slot of a resident brick: with a
    positive pool capacity in x and y whose product fits a [uint], the
    coordinates lie within the capacity in x and y and recombine to the
    slot number [brickInfo - BI_FLAG_COUNT]. *)
Theorem X14_infoToCoords_decodes_slot (brickInfo : Z) :
  0 < vx (POOL_CAPACITY pool) ->
  0 < vy (POOL_CAPACITY pool) ->
  vx (POOL_CAPACITY pool) * vy (POOL_CAPACITY pool) < 2 ^ 32 ->
  BI_FLAG_COUNT <= brickInfo < 2 ^ 32 ->
  0 <= vx (infoToCoords pool brickInfo) < vx (POOL_CAPACITY pool) /\
  0 <= vy (infoToCoords pool brickInfo) < vy (POOL_CAPACITY pool) /\
  0 <= vz (infoToCoords pool brickInfo) /\
  vx (infoToCoords pool brickInfo)
    + vx (POOL_CAPACITY pool)
      * (vy (infoToCoords pool brickInfo)
         + vy (POOL_CAPACITY pool) * vz (infoToCoords pool brickInfo))
  = brickInfo - BI_FLAG_COUNT.
Proof.
  intros Hcx Hcy Hfit Hb. unfold infoToCoords. cbn [vx vy vz].
  set (cx := vx (POOL_CAPACITY pool)) in *.
  set (cy := vy (POOL_CAPACITY pool)) in *.
  unfold BI_FLAG_COUNT in *.
  unfold wrap32. rewrite (Z.mod_small (brickInfo - 3)) by lia.
  rewrite (Z.mod_small (cx * cy)) by nia.
  set (id := brickInfo - 3).
  assert (Hid : 0 <= id) by (unfold id; lia).
  rewrite <- (Z.div_div id cx cy) by lia.
  pose proof (Z.mod_pos_bound id cx Hcx).
  pose proof (Z.mod_pos_bound (id / cx) cy Hcy).
  pose proof (Z.div_mod id cx ltac:(lia)) as D1.
  pose proof (Z.div_mod (id / cx) cy ltac:(lia)) as D2.
  assert (0 <= id / cx) by (apply Z.div_pos; lia).
  assert (0 <= id / cx / cy) by (apply Z.div_pos; lia).
  repeat split; lia.
Qed.
End PoolIndexFacts.

Section ExactAddressingMore.
Import ExactFloat.

Lemma exact_cell_unique (c : Z) (x f : Q) :
  (0 < f)%Q -> 0 <= c <= 2 ^ 32 - 2 ->
  (inject_Z c / f <= x)%Q -> (x < inject_Z (c + 1) / f)%Q ->
  uint_of_float (fmul x f) = c.
Proof.
  intros Hf Hc Hlo Hhi. cbn [uint_of_float fmul exact].
  assert (E0 : (inject_Z c / f * f == inject_Z c)%Q) by (field; lra).
  assert (E1 : (inject_Z (c + 1) / f * f == inject_Z (c + 1))%Q) by (field; lra).
  assert (H0 : (inject_Z c <= x * f)%Q).
  { rewrite <- E0. apply Qmult_le_compat_r; [exact Hlo | lra]. }
  assert (H1 : (x * f < inject_Z (c + 1))%Q).
  { rewrite <- E1. apply Qmult_lt_compat_r; [exact Hf | exact Hhi]. }
  assert (Hfl : Qfloor (x * f) = c).
  { apply Z.le_antisymm.
    - assert (Hlt : (inject_Z (Qfloor (x * f)) < inject_Z (c + 1))%Q)
        by (apply Qle_lt_trans with (x * f)%Q; [apply Qfloor_le | exact H1]).
      rewrite <- Zlt_Qlt in Hlt. lia.
    - rewrite <- (Qfloor_Z c). apply Qfloor_resp_le. exact H0. }
  rewrite Hfl. unfold saturate32. lia.
Qed.

(** X13. In exact arithmetic, a position that lies within the bounds of a
    cell, the upper bound excluded, is addressed to that cell: on a level of
    positive layout, [computeBrickCoords] of a point between the corners
    that [getBrickCorners] gives for cell [c] is [c]. *)
Theorem X13_inner_point_addresses_its_cell (levelArray : Z -> LevelData Q)
    (L : Z) (c : vec3 Z) (p : vec3 Q) :
  positive3 (fractionalBrickLayout (levelArray L)) ->
  cellInRange c ->
  vle3 (corner0 (getBrickCorners (mkUint4 c L) levelArray)) p ->
  vlt3 p (corner1 (getBrickCorners (mkUint4 c L) levelArray)) ->
  computeBrickCoords p levelArray L = mkUint4 c L.
Proof.
  destruct c as [cx cy cz].
  unfold positive3, cellInRange, vle3, vlt3, getBrickCorners, computeBrickCoords.
  cbn [w xyz]. unfold zip3, map3. cbn [vx vy vz corner0 corner1].
  intros (Hfx & Hfy & Hfz) (Hcx & Hcy & Hcz) (Hlx & Hly & Hlz) (Hhx & Hhy & Hhz).
  unfold wrap32 in Hhx, Hhy, Hhz.
  rewrite Z.mod_small in Hhx, Hhy, Hhz by lia.
  rewrite (exact_cell_unique cx _ _ Hfx Hcx Hlx Hhx).
  rewrite (exact_cell_unique cy _ _ Hfy Hcy Hly Hhy).
  rewrite (exact_cell_unique cz _ _ Hfz Hcz Hlz Hhz).
  reflexivity.
Qed.

(** X15. In exact arithmetic, the transform that [normCoordsToPoolCoords]
    derives carries the brick onto its pool slot: applied to the two corners
    of a brick of non-zero extent on every axis, it yields the two corners
    that [brickPoolCoords] gives for the residency word. *)
Theorem X15_pool_transform_maps_corners (pool : PoolConfig Q)
    (corners : BrickCorners Q) (brickInfo : Z) :
  nonzero3 (zip3 Qminus (corner1 corners) (corner0 corners)) ->
  veq3 (poolEntryCoords
          (normCoordsToPoolCoords pool (corner0 corners) (corner1 corners)
             corners brickInfo))
       (corner0 (brickPoolCoords pool brickInfo)) /\
  veq3 (poolExitCoords
          (normCoordsToPoolCoords pool (corner0 corners) (corner1 corners)
             corners brickInfo))
       (corner1 (brickPoolCoords pool brickInfo)).
Proof.
  unfold nonzero3, veq3, normCoordsToPoolCoords.
  set (pc := brickPoolCoords pool brickInfo).
  destruct corners as [[ax ay az] [bx by' bz]], pc as [[px py pz] [qx qy qz]].
  unfold zip3. cbn [vx vy vz corner0 corner1 poolEntryCoords poolExitCoords
                      fadd fsub fmul fdiv exact].
  intros (Hx & Hy & Hz).
  repeat split; field; assumption.
Qed.
End ExactAddressingMore.

Section ExitFacts.
Import ExactFloat.

Lemma exact_fmin_spec (a b : Q) :
  (fmin a b <= a)%Q /\ (fmin a b <= b)%Q /\ (fmin a b = a \/ fmin a b = b).
Proof.
  unfold fmin. cbn [fltb exact].
  destruct (Qle_bool a b) eqn:E; cbn [negb].
  - apply Qle_bool_iff in E. repeat split; [apply Qle_refl | exact E | left; reflexivity].
  - assert (Hlt : (b < a)%Q).
    { apply Qnot_le_lt. intros Hle. apply Qle_bool_iff in Hle. congruence. }
    repeat split; [apply Qlt_le_weak; exact Hlt | apply Qle_refl | right; reflexivity].
Qed.

Lemma exact_side (d : Q) :
  ~ (d == 0)%Q ->
  ((0 < d)%Q /\
   uint_of_float (fstep (float_of_uint 0) (fdiv (float_of_uint 1) d)) = 1)
  \/ ((d < 0)%Q /\
      uint_of_float (fstep (float_of_uint 0) (fdiv (float_of_uint 1) d)) = 0).
Proof.
  intros Hd. unfold fstep. cbn [fltb fdiv float_of_uint uint_of_float exact].
  assert (E : (d * (inject_Z 1 / d) == 1)%Q) by (field; exact Hd).
  destruct (Qlt_le_dec d 0) as [Hneg | Hpos].
  - right. split; [exact Hneg|].
    destruct (Qle_bool (inject_Z 0) (inject_Z 1 / d)) eqn:Hb; [|reflexivity].
    apply Qle_bool_iff in Hb. exfalso.
    change (inject_Z 0) with 0%Q in Hb. nra.
  - left. assert (Hlt : (0 < d)%Q).
    { apply Qle_lt_or_eq in Hpos. destruct Hpos as [Hlt | Heq]; [exact Hlt|].
      exfalso. apply Hd. symmetry. exact Heq. }
    split; [exact Hlt|].
    destruct (Qle_bool (inject_Z 0) (inject_Z 1 / d)) eqn:Hb; [reflexivity|].
    exfalso.
    assert (Hinv : (0 <= inject_Z 1 / d)%Q).
    { apply Qlt_le_weak. apply Qlt_shift_div_l; [exact Hlt|]. reflexivity. }
    apply Qle_bool_iff in Hinv. change (inject_Z 0) with 0%Q in Hb. congruence.
Qed.

Lemma cornerAt_vx (c : BrickCorners Q) (s : Z) :
  vx (cornerAt c s) = if s =? 0 then vx (corner0 c) else vx (corner1 c).
Proof. unfold cornerAt. destruct (s =? 0); reflexivity. Qed.

Lemma cornerAt_vy (c : BrickCorners Q) (s : Z) :
  vy (cornerAt c s) = if s =? 0 then vy (corner0 c) else vy (corner1 c).
Proof. unfold cornerAt. destruct (s =? 0); reflexivity. Qed.

Lemma cornerAt_vz (c : BrickCorners Q) (s : Z) :
  vz (cornerAt c s) = if s =? 0 then vz (corner0 c) else vz (corner1 c).
Proof. unfold cornerAt. destruct (s =? 0); reflexivity. Qed.

(** One axis of [brickExit]: the distance to the face ahead, of the brick
    or of the cube, is not negative, and no step up to it leaves either. *)
Lemma exact_exit_axis (c0 c1 b0 b1 p d : Q) (side : Z) :
  ((0 < d)%Q /\ side = 1) \/ ((d < 0)%Q /\ side = 0) ->
  (c0 <= p <= c1)%Q -> (b0 <= p <= b1)%Q ->
  (0 <= fmin (fmul (fsub (if side =? 0 then c0 else c1) p)
                   (fdiv (float_of_uint 1) d))
             (fmul (fsub (if side =? 0 then b0 else b1) p)
                   (fdiv (float_of_uint 1) d)))%Q /\
  forall t : Q,
    (0 <= t)%Q ->
    (t <= fmin (fmul (fsub (if side =? 0 then c0 else c1) p)
                     (fdiv (float_of_uint 1) d))
               (fmul (fsub (if side =? 0 then b0 else b1) p)
                     (fdiv (float_of_uint 1) d)))%Q ->
    (c0 <= fadd p (fmul t d) <= c1)%Q /\ (b0 <= fadd p (fmul t d) <= b1)%Q.
Proof.
  intros Hside Hc Hb.
  match goal with |- (0 <= ?m)%Q /\ _ => set (cand := m) end.
  destruct (exact_fmin_spec
              (fmul (fsub (if side =? 0 then c0 else c1) p) (fdiv (float_of_uint 1) d))
              (fmul (fsub (if side =? 0 then b0 else b1) p) (fdiv (float_of_uint 1) d)))
    as (HleA & HleB & Hone).
  fold cand in HleA, HleB, Hone.
  cbn [fadd fsub fmul fdiv float_of_uint exact] in *.
  assert (E : (d * (inject_Z 1 / d) == 1)%Q).
  { field. destruct Hside as [[Hd _] | [Hd _]]; lra. }
  set (dv := (inject_Z 1 / d)%Q) in *.
  destruct Hside as [[Hd ->] | [Hd ->]]; cbn [Z.eqb] in *.
  - assert (Hdv : (0 < dv)%Q) by nra.
    assert (HA : (0 <= (c1 - p) * dv)%Q) by nra.
    assert (HB : (0 <= (b1 - p) * dv)%Q) by nra.
    split; [destruct Hone as [-> | ->]; assumption|].
    intros t Ht Htc.
    assert (Ht0 : (0 <= t * d)%Q) by nra.
    assert (HtA : (t * d <= c1 - p)%Q) by nra.
    assert (HtB : (t * d <= b1 - p)%Q) by nra.
    lra.
  - assert (Hdv : (dv < 0)%Q) by nra.
    assert (HA : (0 <= (c0 - p) * dv)%Q) by nra.
    assert (HB : (0 <= (b0 - p) * dv)%Q) by nra.
    split; [destruct Hone as [-> | ->]; assumption|].
    intros t Ht Htc.
    assert (Ht0 : (t * d <= 0)%Q) by nra.
    assert (HtA : (c0 - p <= t * d)%Q) by nra.
    assert (HtB : (b0 - p <= t * d)%Q) by nra.
    lra.
Qed.

Lemma exact_brickExit_inside (p dir : vec3 Q)
    (cubeBounds corners : BrickCorners Q) :
  nonzero3 dir ->
  vle3 (corner0 corners) p -> vle3 p (corner1 corners) ->
  vle3 (corner0 cubeBounds) p -> vle3 p (corner1 cubeBounds) ->
  (vle3 (corner0 corners) (brickExit p dir cubeBounds corners) /\
   vle3 (corner0 cubeBounds) (brickExit p dir cubeBounds corners)) /\
  (vle3 (brickExit p dir cubeBounds corners) (corner1 corners) /\
   vle3 (brickExit p dir cubeBounds corners) (corner1 cubeBounds)).
Proof.
  intros (Hdx & Hdy & Hdz) (Hx0 & Hy0 & Hz0) (Hx1 & Hy1 & Hz1)
         (Bx0 & By0 & Bz0) (Bx1 & By1 & Bz1).
  unfold brickExit, vle3, zip3, map3. cbn [vx vy vz].
  rewrite !cornerAt_vx, !cornerAt_vy, !cornerAt_vz.
  destruct (exact_exit_axis _ _ _ _ _ _ _ (exact_side (vx dir) Hdx)
              (conj Hx0 Hx1) (conj Bx0 Bx1)) as [Px Ax].
  destruct (exact_exit_axis _ _ _ _ _ _ _ (exact_side (vy dir) Hdy)
              (conj Hy0 Hy1) (conj By0 By1)) as [Py Ay].
  destruct (exact_exit_axis _ _ _ _ _ _ _ (exact_side (vz dir) Hdz)
              (conj Hz0 Hz1) (conj Bz0 Bz1)) as [Pz Az].
  match goal with
  | |- context [fmul (fmin (fmin ?a ?b) ?c) _] =>
      set (tx := a) in *; set (ty := b) in *; set (tz := c) in *
  end.
  destruct (exact_fmin_spec tx ty) as (L1 & L2 & O1).
  destruct (exact_fmin_spec (fmin tx ty) tz) as (L3 & L4 & O2).
  set (t := fmin (fmin tx ty) tz) in *.
  assert (Ht : (0 <= t)%Q).
  { destruct O2 as [-> | ->]; [|exact Pz].
    destruct O1 as [-> | ->]; assumption. }
  assert (Htx : (t <= tx)%Q) by (apply Qle_trans with (fmin tx ty); assumption).
  assert (Hty : (t <= ty)%Q) by (apply Qle_trans with (fmin tx ty); assumption).
  destruct (Ax t Ht Htx) as [[? ?] [? ?]].
  destruct (Ay t Ht Hty) as [[? ?] [? ?]].
  destruct (Az t Ht L4) as [[? ?] [? ?]].
  repeat split; assumption.
Qed.

(** X16. In exact arithmetic, for a ray that is not parallel to any axis
    and a point that lies in the brick and in the cube, the point that
    [brickExit] returns lies in the brick and in the cube as well: the step
    never passes a face of either. *)
Theorem X16_brickExit_stays_inside (p dir : vec3 Q)
    (cubeBounds corners : BrickCorners Q) :
  nonzero3 dir ->
  vle3 (corner0 corners) p -> vle3 p (corner1 corners) ->
  vle3 (corner0 cubeBounds) p -> vle3 p (corner1 cubeBounds) ->
  vle3 (corner0 corners) (brickExit p dir cubeBounds corners) /\
  vle3 (brickExit p dir cubeBounds corners) (corner1 corners) /\
  vle3 (corner0 cubeBounds) (brickExit p dir cubeBounds corners) /\
  vle3 (brickExit p dir cubeBounds corners) (corner1 cubeBounds).
Proof.
  intros Hdir Hlo Hhi Clo Chi.
  destruct (exact_brickExit_inside p dir cubeBounds corners Hdir Hlo Hhi Clo Chi)
    as [[B0 C0] [B1 C1]].
  repeat split; first [apply B0 | apply B1 | apply C0 | apply C1].
Qed.
End ExitFacts.

(** ** The exit point of a resolved brick *)

Section ExitOfResult.
Context {F : Type} `{MetalFloat F}.
Context (cfg : Config) (pool : PoolConfig F).
Context (entry : vec3 F) (direction : vec3 F) (cubeBounds : BrickCorners F).
Context (brickMeta : Z -> Z) (levelArray : Z -> LevelData F).
Context (spurious : nat -> Z -> bool).

Lemma getBrick_exit (fuel : nat) (iLOD : Z) (hb : list Z)
    (dontRequest : bool) (info : BrickInformation F) (hb' : list Z) :
  getBrick cfg pool fuel spurious entry iLOD direction cubeBounds brickMeta
    levelArray
    hb dontRequest = Some (info, hb') ->
  brickExit (clampEntry entry) direction cubeBounds
    (getBrickCorners
       (computeBrickCoords (clampEntry entry) levelArray (LOD info))
       levelArray)
  = normExitCoords info.
Proof.
  unfold getBrick.
  assert (Hskip : forall (bi start : Z) (bc' : uint4) (bi' lod' : Z),
             skipEmpty cfg (clampEntry entry) brickMeta levelArray
               (computeBrickCoords (clampEntry entry) levelArray start) bi start
               = (bc', bi', lod') ->
             bc' = computeBrickCoords (clampEntry entry) levelArray lod').
  { intros bi start bc' bi' lod'. unfold skipEmpty.
    destruct (skipEmptyFrom_spec cfg (clampEntry entry) brickMeta levelArray
                (Z.to_nat (LEVEL_COUNT cfg - wrap32 (start + 1)))
                (wrap32 (start + 1))
                (computeBrickCoords (clampEntry entry) levelArray start)
                bi start (Nat.le_refl _))
      as [[-> _] | (l & -> & _)]; intros [= <- _ <-]; reflexivity. }
  destruct (negb dontRequest && _).
  - destruct (lookForLowerRes _ _ _ _ _ _) as [st|] eqn:Hst; [|discriminate].
    destruct (lookForLowerRes_sound _ _ _ _ _ _ _ Hst) as (_ & Hbc & _).
    rewrite Hbc.
    destruct (ms_brickInfo st <=? BI_EMPTY).
    + destruct (skipEmpty _ _ _ _ _ _ _) as [[bc' bi'] lod'] eqn:Hsk.
      apply Hskip in Hsk. subst bc'. intros [= <- _]. reflexivity.
    + intros [= <- _]. reflexivity.
  - destruct (brickMeta _ <=? BI_EMPTY).
    + destruct (skipEmpty _ _ _ _ _ _ _) as [[bc' bi'] lod'] eqn:Hsk.
      apply Hskip in Hsk. subst bc'. intros [= <- _]. reflexivity.
    + intros [= <- _]. reflexivity.
Qed.

(** X17. The exit point of a result is computed for the brick at the level
    returned, not for the brick first looked up: it is [brickExit] of the
    clamped entry point on the bounds of the cell that holds this point at
    level [LOD info]. *)
Theorem X17_exit_is_of_returned_brick (fuel : nat) (iLOD : Z) (hb : list Z)
    (dontRequest : bool) (info : BrickInformation F) (hb' : list Z) :
  getBrick cfg pool fuel spurious entry iLOD direction cubeBounds brickMeta
    levelArray
    hb dontRequest = Some (info, hb') ->
  normExitCoords info
  = brickExit (clampEntry entry) direction cubeBounds
      (getBrickCorners
         (computeBrickCoords (clampEntry entry) levelArray (LOD info))
         levelArray).
Proof.
  intros Hret. symmetry.
  exact (getBrick_exit fuel iLOD hb dontRequest info hb' Hret).
Qed.
End ExitOfResult.

Section ExactExit.
Import ExactFloat.

Lemma exact_clamp (x : Q) :
  (0 <= fclamp x (float_of_uint 0) (float_of_uint 1) <= 1)%Q.
Proof.
  unfold fclamp, fmin, fmax. cbn [fltb float_of_uint exact].
  change (inject_Z 0) with 0%Q. change (inject_Z 1) with 1%Q.
  destruct (Qle_bool 0 x) eqn:E0; cbn [negb].
  - apply Qle_bool_iff in E0.
    destruct (Qle_bool x 1) eqn:E1; cbn [negb].
    + apply Qle_bool_iff in E1. split; assumption.
    + split; lra.
  - destruct (Qle_bool 0 1) eqn:E1; cbn [negb]; [split; lra|].
    discriminate.
Qed.

Lemma exact_clampEntry (entry : vec3 Q) : inUnitCube (clampEntry entry).
Proof.
  unfold inUnitCube, clampEntry, map3. cbn [vx vy vz].
  repeat split; apply exact_clamp.
Qed.

(** The corners of the cell of a point of the unit cube enclose it. *)
Lemma exact_cell_encloses (p : vec3 Q) (levelArray : Z -> LevelData Q) (L : Z) :
  inUnitCube p ->
  layoutInRange (fractionalBrickLayout (levelArray L)) ->
  vle3 (corner0 (getBrickCorners (computeBrickCoords p levelArray L) levelArray)) p /\
  vle3 p (corner1 (getBrickCorners (computeBrickCoords p levelArray L) levelArray)).
Proof.
  intros (Hx & Hy & Hz) ((Hfx0 & Hfx1) & (Hfy0 & Hfy1) & (Hfz0 & Hfz1)).
  unfold vle3, getBrickCorners, computeBrickCoords. cbn [w xyz].
  unfold zip3, map3. cbn [vx vy vz corner0 corner1].
  destruct (exact_cell_contains _ _ Hx Hfx0 Hfx1) as [Ax Bx].
  destruct (exact_cell_contains _ _ Hy Hfy0 Hfy1) as [Ay By].
  destruct (exact_cell_contains _ _ Hz Hfz0 Hfz1) as [Az Bz].
  cbn [fleb exact] in *.
  apply Qle_bool_iff in Ax, Bx, Ay, By, Az, Bz.
  repeat split; assumption.
Qed.

(** X18. In exact arithmetic, with a layout in range on every level, a ray
    not parallel to any axis and cube bounds that enclose the unit cube,
    the exit point of every result lies within the bounds of the brick at
    the level returned and within the cube bounds, whatever the entry
    point was before clamping. *)
Theorem X18_exit_point_in_brick_and_cube (cfg : Config) (pool : PoolConfig Q)
    (entry direction : vec3 Q) (cubeBounds : BrickCorners Q)
    (brickMeta : Z -> Z) (levelArray : Z -> LevelData Q)
    (spurious : nat -> Z -> bool)
    (fuel : nat) (iLOD : Z) (hb : list Z) (dontRequest : bool)
    (info : BrickInformation Q) (hb' : list Z) :
  (forall L : Z, layoutInRange (fractionalBrickLayout (levelArray L))) ->
  nonzero3 direction ->
  vle3 (corner0 cubeBounds) (splat 0%Q) ->
  vle3 (splat 1%Q) (corner1 cubeBounds) ->
  getBrick cfg pool fuel spurious entry iLOD direction cubeBounds brickMeta
    levelArray
    hb dontRequest = Some (info, hb') ->
  vle3 (corner0 (getBrickCorners
                   (computeBrickCoords (clampEntry entry) levelArray (LOD info))
                   levelArray))
       (normExitCoords info) /\
  vle3 (normExitCoords info)
       (corner1 (getBrickCorners
                   (computeBrickCoords (clampEntry entry) levelArray (LOD info))
                   levelArray)) /\
  vle3 (corner0 cubeBounds) (normExitCoords info) /\
  vle3 (normExitCoords info) (corner1 cubeBounds).
Proof.
  intros Hlay Hdir (C0x & C0y & C0z) (C1x & C1y & C1z) Hret.
  rewrite <- (getBrick_exit _ _ _ _ _ _ _ _ _ _ _ _ _ _ Hret).
  pose proof (exact_clampEntry entry) as Hunit.
  destruct (exact_cell_encloses (clampEntry entry) levelArray (LOD info)
              Hunit (Hlay (LOD info))) as [Hlo Hhi].
  destruct Hunit as ((Ux0 & Ux1) & (Uy0 & Uy1) & (Uz0 & Uz1)).
  cbn [splat vx vy vz] in *.
  destruct (exact_brickExit_inside (clampEntry entry) direction cubeBounds
              (getBrickCorners
                 (computeBrickCoords (clampEntry entry) levelArray (LOD info))
                 levelArray))
    as [[B0 C0] [B1 C1]]; try assumption.
  - repeat split; cbn [vx vy vz]; lra.
  - repeat split; cbn [vx vy vz]; lra.
  - repeat split; first [apply B0 | apply B1 | apply C0 | apply C1].
Qed.
End ExactExit.

Section AddressingSamples.
Import ExactFloat.

Local Ltac decide_order :=
  repeat split; vm_compute; first [reflexivity | discriminate].

Lemma X12_witness : mkVec3 1 2 3 = mkVec3 1 2 3.
Proof.
  apply (X12_getBrickIndex_injective gridLevels 0 (mkVec3 1 2 3) (mkVec3 1 2 3)).
  - decide_order.
  - decide_order.
  - reflexivity.
Defined.

Lemma X13_witness :
  computeBrickCoords (mkVec3 (3 # 8) (5 # 8) (7 # 8))%Q gridLevels 0
  = mkUint4 (mkVec3 1 2 3) 0.
Proof.
  apply (X13_inner_point_addresses_its_cell gridLevels 0 (mkVec3 1 2 3)
           (mkVec3 (3 # 8) (5 # 8) (7 # 8))%Q).
  - decide_order.
  - decide_order.
  - decide_order.
  - decide_order.
Defined.

Lemma X14_witness :
  0 <= vx (infoToCoords gridPool 30) < vx (POOL_CAPACITY gridPool) /\
  0 <= vy (infoToCoords gridPool 30) < vy (POOL_CAPACITY gridPool) /\
  0 <= vz (infoToCoords gridPool 30) /\
  vx (infoToCoords gridPool 30)
    + vx (POOL_CAPACITY gridPool)
      * (vy (infoToCoords gridPool 30)
         + vy (POOL_CAPACITY gridPool) * vz (infoToCoords gridPool 30))
  = 30 - BI_FLAG_COUNT.
Proof.
  apply (X14_infoToCoords_decodes_slot gridPool 30).
  - reflexivity.
  - reflexivity.
  - reflexivity.
  - decide_order.
Defined.

Lemma X15_witness :
  veq3 (poolEntryCoords
          (normCoordsToPoolCoords gridPool (corner0 demoCube) (corner1 demoCube)
             demoCube 30))
       (corner0 (brickPoolCoords gridPool 30)) /\
  veq3 (poolExitCoords
          (normCoordsToPoolCoords gridPool (corner0 demoCube) (corner1 demoCube)
             demoCube 30))
       (corner1 (brickPoolCoords gridPool 30)).
Proof.
  apply (X15_pool_transform_maps_corners gridPool demoCube 30).
  repeat split; vm_compute; discriminate.
Defined.

Lemma X16_witness :
  vle3 (corner0 demoCube) (brickExit demoEntry demoDirection demoCube demoCube) /\
  vle3 (brickExit demoEntry demoDirection demoCube demoCube) (corner1 demoCube) /\
  vle3 (corner0 demoCube) (brickExit demoEntry demoDirection demoCube demoCube) /\
  vle3 (brickExit demoEntry demoDirection demoCube demoCube) (corner1 demoCube).
Proof.
  apply (X16_brickExit_stays_inside demoEntry demoDirection demoCube demoCube).
  - repeat split; vm_compute; discriminate.
  - decide_order.
  - decide_order.
  - decide_order.
  - decide_order.
Defined.

Lemma X17_witness :
  exists (info : BrickInformation Q) (hb' : list Z),
    getBrick dummy demoPool 3 allReliable demoEntry 0 demoDirection demoCube
      (metaOf [0; 0; 2; 1; 3]) oneBrickLevels (clearedTable dummy) false
      = Some (info, hb') /\
    normExitCoords info
    = brickExit (clampEntry demoEntry) demoDirection demoCube
        (getBrickCorners
           (computeBrickCoords (clampEntry demoEntry) oneBrickLevels (LOD info))
           oneBrickLevels).
Proof.
  do 2 eexists. split; [vm_compute; reflexivity|].
  eapply (X17_exit_is_of_returned_brick dummy demoPool demoEntry demoDirection
            demoCube (metaOf [0; 0; 2; 1; 3]) oneBrickLevels allReliable 3%nat 0
            (clearedTable dummy) false).
  vm_compute. reflexivity.
Defined.

Lemma X18_witness :
  exists (info : BrickInformation Q) (hb' : list Z),
    getBrick dummy demoPool 3 allReliable (mkVec3 (3 # 2) (1 # 4) (-1 # 3))%Q 0
      demoDirection demoCube
      (metaOf [0; 0; 2; 1; 3]) oneBrickLevels (clearedTable dummy) false
      = Some (info, hb') /\
    vle3 (corner0 (getBrickCorners
                     (computeBrickCoords
                        (clampEntry (mkVec3 (3 # 2) (1 # 4) (-1 # 3))%Q)
                        oneBrickLevels (LOD info))
                     oneBrickLevels))
         (normExitCoords info) /\
    vle3 (normExitCoords info)
         (corner1 (getBrickCorners
                     (computeBrickCoords
                        (clampEntry (mkVec3 (3 # 2) (1 # 4) (-1 # 3))%Q)
                        oneBrickLevels (LOD info))
                     oneBrickLevels)) /\
    vle3 (corner0 demoCube) (normExitCoords info) /\
    vle3 (normExitCoords info) (corner1 demoCube).
Proof.
  do 2 eexists. split; [vm_compute; reflexivity|].
  eapply (X18_exit_point_in_brick_and_cube dummy demoPool
            (mkVec3 (3 # 2) (1 # 4) (-1 # 3))%Q demoDirection
            demoCube (metaOf [0; 0; 2; 1; 3]) oneBrickLevels allReliable
            3%nat 0 (clearedTable dummy) false).
  - intros L. unfold layoutInRange. cbn. repeat split.
  - repeat split; vm_compute; discriminate.
  - decide_order.
  - decide_order.
  - vm_compute. reflexivity.
Defined.
End AddressingSamples.

(** ** Helper.h *)

Section EntryPointFacts.
Context {F : Type} `{MetalFloat F} `{MetalMath F}.

End EntryPointFacts.

Section ExactHelper.
Import ExactFloat ExactMath.

Lemma exact_fmax_spec (a b : Q) : (a <= fmax a b)%Q /\ (b <= fmax a b)%Q.
Proof.
  unfold fmax. cbn [fltb exact].
  destruct (Qle_bool b a) eqn:E; cbn [negb].
  - apply Qle_bool_iff in E. split; [apply Qle_refl | exact E].
  - assert (Hlt : (a < b)%Q).
    { apply Qnot_le_lt. intros Hle. apply Qle_bool_iff in Hle. congruence. }
    split; [apply Qlt_le_weak; exact Hlt | apply Qle_refl].
Qed.

(** One axis of the slab test: any parameter between the two times gives a
    coordinate between the two bounds. *)
Lemma exact_slab (minB maxB p d : Q) :
  ((1 # 1000000) < Qabs d)%Q ->
  forall t : Q,
    (fst (slabTimes minB maxB p d) <= t)%Q ->
    (t <= snd (slabTimes minB maxB p d))%Q ->
    (minB <= fadd p (fmul t d) <= maxB)%Q.
Proof.
  intros Hd t. unfold slabTimes.
  cbn [fltb fleb fsub fdiv fadd fmul float_of_uint float_lit fabs exact exactMath].
  assert (Hb : Qle_bool (Qabs d) (1 # 1000000) = false).
  { destruct (Qle_bool (Qabs d) (1 # 1000000)) eqn:E; [|reflexivity].
    apply Qle_bool_iff in E. lra. }
  rewrite Hb. cbn [negb].
  change (inject_Z 0) with 0%Q.
  destruct (Qle_bool 0 d) eqn:E0; cbn [negb fst snd].
  - apply Qle_bool_iff in E0.
    assert (Hpos : (0 < d)%Q).
    { apply Qle_lt_or_eq in E0. destruct E0 as [Hlt | Heq]; [exact Hlt|].
      rewrite <- Heq in Hd. vm_compute in Hd. discriminate. }
    intros H1 H2.
    assert (E1 : ((minB - p) / d * d == minB - p)%Q) by (field; lra).
    assert (E2 : ((maxB - p) / d * d == maxB - p)%Q) by (field; lra).
    assert (G1 : ((minB - p) / d * d <= t * d)%Q)
      by (apply Qmult_le_compat_r; lra).
    assert (G2 : (t * d <= (maxB - p) / d * d)%Q)
      by (apply Qmult_le_compat_r; lra).
    lra.
  - assert (Hneg : (d < 0)%Q).
    { apply Qnot_le_lt. intros Hle. apply Qle_bool_iff in Hle. congruence. }
    intros H1 H2.
    assert (E1 : ((minB - p) / d * - d == - (minB - p))%Q) by (field; lra).
    assert (E2 : ((maxB - p) / d * - d == - (maxB - p))%Q) by (field; lra).
    assert (G1 : ((maxB - p) / d * - d <= t * - d)%Q)
      by (apply Qmult_le_compat_r; lra).
    assert (G2 : (t * - d <= (minB - p) / d * - d)%Q)
      by (apply Qmult_le_compat_r; lra).
    assert (E3 : (t * - d == - (t * d))%Q) by ring.
    lra.
Qed.

(** X20. In exact arithmetic, for a ray whose direction exceeds the
    threshold 1e-6 in magnitude on every axis, [computeEntryPoint] returns
    the origin itself or a point within the cube bounds. *)
Theorem X20_entry_point_in_cube (P target : vec3 Q) (params : FragmentUniforms Q) :
  offAxis (zip3 Qminus target P) ->
  computeEntryPoint P target params = P \/
  (vle3 (corner0 (cubeBoundsOf params)) (computeEntryPoint P target params) /\
   vle3 (computeEntryPoint P target params) (corner1 (cubeBoundsOf params))).
Proof.
  intros (Hdx & Hdy & Hdz). unfold computeEntryPoint.
  destruct (_ && _ && _); [left; reflexivity|].
  cbn [fsub exact]. unfold zip3 at 1 2 3. cbn [vx vy vz].
  pose proof (exact_slab (vx (corner0 (cubeBoundsOf params)))
                (vx (corner1 (cubeBoundsOf params))) (vx P) _ Hdx) as Sx.
  pose proof (exact_slab (vy (corner0 (cubeBoundsOf params)))
                (vy (corner1 (cubeBoundsOf params))) (vy P) _ Hdy) as Sy.
  pose proof (exact_slab (vz (corner0 (cubeBoundsOf params)))
                (vz (corner1 (cubeBoundsOf params))) (vz P) _ Hdz) as Sz.
  destruct (slabTimes _ _ (vx P) _) as [tx1 tx2].
  destruct (slabTimes _ _ (vy P) _) as [ty1 ty2].
  destruct (slabTimes _ _ (vz P) _) as [tz1 tz2].
  cbn [fst snd] in Sx, Sy, Sz.
  destruct (fleb (fmax tx1 (fmax ty1 tz1)) (fmin tx2 (fmin ty2 tz2))
            && fleb (float_of_uint 0) (fmin tx2 (fmin ty2 tz2))) eqn:Hhit;
    [|left; reflexivity].
  right. apply andb_prop in Hhit. destruct Hhit as [Hle _].
  cbn [fleb exact] in Hle. apply Qle_bool_iff in Hle.
  destruct (exact_fmax_spec tx1 (fmax ty1 tz1)) as [M1 M2].
  destruct (exact_fmax_spec ty1 tz1) as [M3 M4].
  destruct (exact_fmin_spec tx2 (fmin ty2 tz2)) as (N1 & N2 & _).
  destruct (exact_fmin_spec ty2 tz2) as (N3 & N4 & _).
  set (tEntry := fmax tx1 (fmax ty1 tz1)) in *.
  set (tExit := fmin tx2 (fmin ty2 tz2)) in *.
  destruct (Sx tEntry ltac:(lra) ltac:(lra)) as [? ?].
  destruct (Sy tEntry ltac:(lra) ltac:(lra)) as [? ?].
  destruct (Sz tEntry ltac:(lra) ltac:(lra)) as [? ?].
  unfold vle3, zip3, map3. cbn [vx vy vz].
  repeat split; assumption.
Qed.

Lemma exact_clamp_id (y : Q) :
  (0 <= y <= 1)%Q -> fclamp y (float_of_uint 0) (float_of_uint 1) = y.
Proof.
  intros [H0 H1]. unfold fclamp, fmin, fmax. cbn [fltb float_of_uint exact].
  change (inject_Z 0) with 0%Q. change (inject_Z 1) with 1%Q.
  apply Qle_bool_iff in H0. rewrite H0. cbn [negb].
  apply Qle_bool_iff in H1. rewrite H1. reflexivity.
Qed.

(** X21. Compositing in exact arithmetic, for opacities in [0, 1]: the
    opacity that [under] returns lies between the accumulated opacity and
    1, so it never decreases; the colour it returns lies in [0, 1] on every
    channel; and once the accumulated colour is opaque (opacity 1, channels
    in [0, 1]) a further sample changes neither colour nor opacity. *)
Theorem X21_under_accumulates (current last : color4 Q) :
  (0 <= alpha last <= 1)%Q ->
  (0 <= alpha current <= 1)%Q ->
  (alpha last <= alpha (under current last) <= 1)%Q /\
  inUnitCube (rgb (under current last)) /\
  ((alpha last == 1)%Q -> inUnitCube (rgb last) ->
   veq3 (rgb (under current last)) (rgb last) /\
   (alpha (under current last) == 1)%Q).
Proof.
  intros [La0 La1] [Ca0 Ca1]. unfold under. cbn [alpha rgb].
  cbn [fadd fsub fmul float_of_uint exact].
  change (inject_Z 1) with 1%Q. change (inject_Z 0) with 0%Q.
  set (weight := ((1 - alpha last) * alpha current)%Q).
  assert (Hw : (0 <= weight)%Q) by (apply Qmult_le_0_compat; lra).
  destruct (exact_fmin_spec 1 (alpha last + weight)) as (M1 & M2 & Mone).
  split; [|split].
  - split; [|exact M1]. destruct Mone as [-> | ->]; lra.
  - unfold inUnitCube, map3, zip3. cbn [vx vy vz].
    change 0%Q with (float_of_uint 0). change 1%Q with (float_of_uint 1).
    repeat split; apply exact_clamp.
  - intros Hop ((Rx0 & Rx1) & (Ry0 & Ry1) & (Rz0 & Rz1)).
    assert (Hw0 : (weight == 0)%Q) by (unfold weight; rewrite Hop; ring).
    split.
    + unfold veq3, map3, zip3. cbn [vx vy vz].
      change 0%Q with (float_of_uint 0). change 1%Q with (float_of_uint 1).
      assert (Ex : (vx (rgb last) + weight * vx (rgb current) == vx (rgb last))%Q)
        by (rewrite Hw0; ring).
      assert (Ey : (vy (rgb last) + weight * vy (rgb current) == vy (rgb last))%Q)
        by (rewrite Hw0; ring).
      assert (Ez : (vz (rgb last) + weight * vz (rgb current) == vz (rgb last))%Q)
        by (rewrite Hw0; ring).
      rewrite !exact_clamp_id by (cbn [float_of_uint exact]; lra).
      repeat split; assumption.
    + destruct Mone as [-> | ->]; [reflexivity|]. rewrite Hw0, Hop. ring.
Qed.

(** The loop of [refineIsosurface] moves the position by less than the
    step it is entered with, along the ray. *)
Lemma exact_refineLoop (sample : vec3 Q -> Q) (fIsoval : Q) (n : nat)
    (dir pos : vec3 Q) :
  exists k : Q,
    (-1 < k < 1)%Q /\
    (vx (refineLoop sample fIsoval n dir pos) == vx pos + k * vx dir)%Q /\
    (vy (refineLoop sample fIsoval n dir pos) == vy pos + k * vy dir)%Q /\
    (vz (refineLoop sample fIsoval n dir pos) == vz pos + k * vz dir)%Q.
Proof.
  revert dir pos. induction n as [|n IH]; intros dir pos.
  - exists 0%Q. cbn. repeat split; try lra; ring.
  - cbn [refineLoop].
    set (half := map3 (fun c => fdiv c (float_of_uint 2)) dir).
    assert (Hh : (vx half == vx dir / 2)%Q /\ (vy half == vy dir / 2)%Q /\
                 (vz half == vz dir / 2)%Q).
    { unfold half, map3. cbn. repeat split; reflexivity. }
    destruct Hh as (Hx & Hy & Hz).
    destruct (fleb fIsoval (sample pos)).
    + destruct (fltb _ _).
      * exists (- (1 # 2))%Q. unfold zip3. cbn [vx vy vz fsub exact].
        rewrite Hx, Hy, Hz. repeat split; try lra; field.
      * destruct (IH half (zip3 fsub pos half)) as (k & [K0 K1] & Ex & Ey & Ez).
        exists ((k - 1) * (1 # 2))%Q. rewrite Ex, Ey, Ez.
        unfold zip3. cbn [vx vy vz fsub exact]. rewrite Hx, Hy, Hz.
        split; [split; lra|]. repeat split; field.
    + destruct (fltb _ _).
      * exists (1 # 2)%Q. unfold zip3. cbn [vx vy vz fadd exact].
        rewrite Hx, Hy, Hz. repeat split; try lra; field.
      * destruct (IH half (zip3 fadd pos half)) as (k & [K0 K1] & Ex & Ey & Ez).
        exists ((k + 1) * (1 # 2))%Q. rewrite Ex, Ey, Ez.
        unfold zip3. cbn [vx vy vz fadd exact]. rewrite Hx, Hy, Hz.
        split; [split; lra|]. repeat split; field.
Qed.

(** X22. In exact arithmetic and for any volume, the point that
    [refineIsosurface] returns lies on the ray strictly between the previous
    sample [vCurrentPos - vRayDir] and the current one [vCurrentPos]. *)
Theorem X22_refined_point_between_samples (vRayDir vCurrentPos : vec3 Q)
    (fIsoval : Q) (sample : vec3 Q -> Q) :
  exists k : Q,
    (-1 < k < 0)%Q /\
    (vx (refineIsosurface vRayDir vCurrentPos fIsoval sample)
       == vx vCurrentPos + k * vx vRayDir)%Q /\
    (vy (refineIsosurface vRayDir vCurrentPos fIsoval sample)
       == vy vCurrentPos + k * vy vRayDir)%Q /\
    (vz (refineIsosurface vRayDir vCurrentPos fIsoval sample)
       == vz vCurrentPos + k * vz vRayDir)%Q.
Proof.
  unfold refineIsosurface.
  set (half := map3 (fun c => fdiv c (float_of_uint 2)) vRayDir).
  destruct (exact_refineLoop sample fIsoval 5 half (zip3 fsub vCurrentPos half))
    as (k & [K0 K1] & Ex & Ey & Ez).
  exists ((k - 1) * (1 # 2))%Q. rewrite Ex, Ey, Ez.
  unfold half, zip3, map3. cbn [vx vy vz fsub fdiv float_of_uint exact].
  split; [split; lra|]. repeat split; field.
Qed.
End ExactHelper.

Section HelperSamples.
Import ExactFloat ExactMath.


Lemma X20_witness :
  computeEntryPoint (mkVec3 (-1) (1 # 2) (1 # 2))%Q (mkVec3 2 1 1)%Q demoUniforms
    = (mkVec3 (-1) (1 # 2) (1 # 2))%Q \/
  (vle3 (corner0 (cubeBoundsOf demoUniforms))
        (computeEntryPoint (mkVec3 (-1) (1 # 2) (1 # 2))%Q (mkVec3 2 1 1)%Q
           demoUniforms) /\
   vle3 (computeEntryPoint (mkVec3 (-1) (1 # 2) (1 # 2))%Q (mkVec3 2 1 1)%Q
           demoUniforms)
        (corner1 (cubeBoundsOf demoUniforms))).
Proof.
  apply (X20_entry_point_in_cube (mkVec3 (-1) (1 # 2) (1 # 2))%Q
           (mkVec3 2 1 1)%Q demoUniforms).
  repeat split; vm_compute; reflexivity.
Defined.

Lemma X21_witness :
  ((1 # 2) <= alpha (under (mkColor4 (splat 1%Q) (1 # 2)%Q)
                           (mkColor4 (splat (1 # 4)%Q) (1 # 2)%Q)) <= 1)%Q.
Proof.
  apply (X21_under_accumulates (mkColor4 (splat 1%Q) (1 # 2)%Q)
           (mkColor4 (splat (1 # 4)%Q) (1 # 2)%Q)).
  - split; vm_compute; discriminate.
  - split; vm_compute; discriminate.
Defined.
End HelperSamples.
